(** * NVPTX annotation utilities (llvm/lib/Target/NVPTX/NVPTXUtilities.cpp)

    A shallow embedding of the annotation cache, the metadata reader, the
    query accessors and the derived predicates of NVPTXUtilities.cpp, and
    the properties of them that the specification states.

    Conventions of the embedding:
    - a pointer to an IR object is its address ([addr]); the cache is keyed
      by addresses, as [std::map<const Module *, ...>] is;
    - [unsigned] is a [Z] in [0, 2^32), the narrowing conversion written
      out as [to_unsigned];
    - [assert] is modelled as in a build with assertions enabled: a failed
      assertion ends the computation with [AssertionFailure];
    - the process-wide cache is threaded explicitly through every function
      that touches it.  [sys::Mutex] is a recursive mutex and every
      function takes it for its whole body, so in the sequential model
      taking and releasing it changes nothing and it is left out. *)

From Stdlib Require Import ZArith.
From stdpp Require Import base option list strings gmap.

Open Scope string_scope.
Open Scope list_scope.
Open Scope Z_scope.

(** ** Results: normal return, failed assertion, undefined behaviour *)

Inductive result (A : Type) : Type :=
| Ok (a : A)
| AssertionFailure (msg : string)
| UndefinedBehavior.
Arguments Ok {A} a.
Arguments AssertionFailure {A} msg.
Arguments UndefinedBehavior {A}.

Definition isFatal {A} (r : result A) : Prop :=
  ∃ msg, r = AssertionFailure msg.

Definition result_bind {A B} (r : result A) (k : A → result B) : result B :=
  match r with
  | Ok a => k a
  | AssertionFailure msg => AssertionFailure msg
  | UndefinedBehavior => UndefinedBehavior
  end.

Notation "x <- e ;; k" := (result_bind e (fun x => k))
  (at level 100, e at next level, right associativity).
Notation "e ;;; k" := (result_bind e (fun _ => k))
  (at level 100, right associativity).

(** [assert(c && msg)] *)
Definition assert (c : bool) (msg : string) : result unit :=
  if c then Ok tt else AssertionFailure msg.

(** ** The IR, as far as this file reads it *)

Definition addr := N.

(** [unsigned]: 32 bits. *)
Definition to_unsigned (v : Z) : Z := v mod 2 ^ 32.

(** Modelled from the spec: llvm/IR/Constants.h is not part of the sources.
    A constant is an integer constant, a global value (function or global
    variable, known by its identity) or something else.  An integer
    constant carries what [getZExtValue] returns, a [uint64_t]. *)
Inductive Constant : Type :=
| ConstantInt (v : Z)
| GlobalValueC (gv : addr)
| OtherConstant.

Definition getZExtValue (v : Z) : Z := v mod 2 ^ 64.

(** Modelled from the spec: llvm/IR/Metadata.h is not part of the sources.
    An element of a record is a textual identifier ([MDString]), a constant
    wrapped as metadata, or some other node; an operand may be null. *)
Inductive Metadata : Type :=
| MDString (s : string)
| ConstantAsMetadata (c : Constant)
| OtherMetadata.

Definition MDNode := list (option Metadata).
Definition NamedMDNode := list MDNode.

Record Module : Type := {
  mod_addr : addr;
  named_metadata : list (string * NamedMDNode)
}.

Fixpoint getNamedMetadataIn (l : list (string * NamedMDNode)) (name : string)
  : option NamedMDNode :=
  match l with
  | [] => None
  | (n, nmd) :: rest =>
      if String.eqb n name then Some nmd else getNamedMetadataIn rest name
  end.

Definition getNamedMetadata (m : Module) (name : string) : option NamedMDNode :=
  getNamedMetadataIn (named_metadata m) name.

Record GlobalValue : Type := {
  gv_addr : addr;
  getParent : Module
}.

(** Modelled from the spec: llvm/Support/Alignment.h is not part of the
    sources.  An alignment is a power of two; constructing one from
    another number is a failed assertion. *)
Record Align : Type := { align_value : Z }.
Definition MaybeAlign := option Align.

Definition isPowerOf2 (v : Z) : bool :=
  (0 <? v) && (Z.land v (v - 1) =? 0).

Definition mkAlign (v : Z) : result Align :=
  assert (0 <? v) "Value must not be 0" ;;;
  assert (isPowerOf2 v) "Alignment is not a power of 2" ;;;
  Ok {| align_value := v |}.

(** Calling conventions are numbers; [CallingConv::PTX_Kernel] is 71. *)
Definition PTX_Kernel : Z := 71.

Record Function : Type := {
  fn_gv : GlobalValue;
  getCallingConv : Z;
  (** [F.getAttributes().getAttributes(Index).getStackAlignment()] *)
  fn_getStackAlignment : Z → MaybeAlign
}.

Record Argument : Type := {
  arg_getParent : Function;
  getArgNo : Z
}.

Record CallInst : Type := {
  call_getStackAlignment : Z → MaybeAlign;
  call_metadata : list (string * MDNode)
}.

Fixpoint getMetadataIn (l : list (string * MDNode)) (kind : string)
  : option MDNode :=
  match l with
  | [] => None
  | (k, n) :: rest =>
      if String.eqb k kind then Some n else getMetadataIn rest kind
  end.

Definition getMetadata (I : CallInst) (kind : string) : option MDNode :=
  getMetadataIn (call_metadata I) kind.

Inductive Value : Type :=
| FunctionV (F : Function)
| GlobalVariableV (gv : GlobalValue)
| ArgumentV (arg : Argument)
| OtherValue.

(** [dyn_cast<GlobalValue>(&val)]: functions and global variables are
    global values. *)
Definition dyn_cast_GlobalValue (val : Value) : option GlobalValue :=
  match val with
  | FunctionV F => Some (fn_gv F)
  | GlobalVariableV gv => Some gv
  | _ => None
  end.

Definition dyn_cast_Argument (val : Value) : option Argument :=
  match val with
  | ArgumentV arg => Some arg
  | _ => None
  end.

(** [md->getOperand(i)] asserts that [i] is in range. *)
Definition getOperand (md : MDNode) (i : nat) : result (option Metadata) :=
  match md !! i with
  | Some op => Ok op
  | None => AssertionFailure "Out of range"
  end.

(** [dyn_cast<MDString>(op)]: [dyn_cast] asserts that its argument is not
    null. *)
Definition dyn_cast_MDString (op : option Metadata) : result (option string) :=
  match op with
  | None => AssertionFailure "dyn_cast on a non-existent value"
  | Some (MDString s) => Ok (Some s)
  | Some _ => Ok None
  end.

(** [mdconst::dyn_extract<ConstantInt>(op)]: null is refused, anything
    that is not an integer constant wrapped as metadata gives null. *)
Definition dyn_extract_ConstantInt (op : option Metadata) : result (option Z) :=
  match op with
  | None => AssertionFailure "dyn_cast on a non-existent value"
  | Some (ConstantAsMetadata (ConstantInt v)) => Ok (Some v)
  | Some _ => Ok None
  end.

(** [mdconst::dyn_extract_or_null<GlobalValue>(op)]: null is let through. *)
Definition dyn_extract_or_null_GlobalValue (op : option Metadata) : option addr :=
  match op with
  | Some (ConstantAsMetadata (GlobalValueC gv)) => Some gv
  | _ => None
  end.

(** ** The cache *)

Abbreviation key_val_pair_t := (gmap string (list Z)).
Abbreviation global_val_annot_t := (gmap addr (gmap string (list Z))).

Record AnnotationCache : Type := {
  Cache : gmap addr global_val_annot_t
}.

Definition emptyCache : AnnotationCache := {| Cache := ∅ |}.

(** [clearAnnotationCache]: [AC.Cache.erase(Mod)]. *)
Definition clearAnnotationCache (Mod : addr) (AC : AnnotationCache)
  : AnnotationCache :=
  {| Cache := delete Mod (Cache AC) |}.
Arguments clearAnnotationCache Mod%_N AC.

(** ** The metadata reader: [cacheAnnotationFromMD(md, retval)] *)

(** The body of the loop after both operands were checked:
    [retval[keyname].push_back(v)] when the key exists, a fresh
    one-element vector otherwise.  The value narrows from [uint64_t] to
    [unsigned]. *)
Definition recordValue (retval : key_val_pair_t) (keyname : string) (v : Z)
  : key_val_pair_t :=
  match retval !! keyname with
  | Some vs => <[keyname := vs ++ [to_unsigned (getZExtValue v)]]> retval
  | None => <[keyname := [to_unsigned (getZExtValue v)]]> retval
  end.

(** The loop [for (i = 1; i != e; i += 2)], on the operands from index
    [i] on.  A single operand left cannot happen after the assertion on
    the number of operands; [getOperand(i + 1)] would then be out of
    range. *)
Fixpoint readPairs (ops : list (option Metadata)) (retval : key_val_pair_t)
  : result key_val_pair_t :=
  match ops with
  | [] => Ok retval
  | p :: rest =>
      prop <- dyn_cast_MDString p ;;
      match prop with
      | None => AssertionFailure "Annotation property not a string"
      | Some keyname =>
          match rest with
          | [] => AssertionFailure "Out of range"
          | v :: rest' =>
              Val <- dyn_extract_ConstantInt v ;;
              match Val with
              | None => AssertionFailure "Value operand not a constant int"
              | Some n => readPairs rest' (recordValue retval keyname n)
              end
          end
      end
  end.

(** [cacheAnnotationFromMD(const MDNode *md, key_val_pair_t &retval)] *)
Definition cacheAnnotationFromMD_MDNode (md : option MDNode) (retval : key_val_pair_t)
  : result key_val_pair_t :=
  match md with
  | None => AssertionFailure "Invalid mdnode for annotation"
  | Some ops =>
      assert (Z.of_nat (length ops) mod 2 =? 1) "Invalid number of operands" ;;;
      readPairs (drop 1 ops) retval
  end.

(** ** Population: [cacheAnnotationFromMD(m, gv)] *)

(** The loop over the operands of [nvvm.annotations], accumulating the
    annotations of [gv] in [tmp]. *)
Fixpoint scanRecords (NMD : NamedMDNode) (gv : addr) (tmp : key_val_pair_t)
  : result key_val_pair_t :=
  match NMD with
  | [] => Ok tmp
  | elem :: rest =>
      op0 <- getOperand elem 0 ;;
      match dyn_extract_or_null_GlobalValue op0 with
      | None => scanRecords rest gv tmp
      | Some entity =>
          if negb (N.eqb entity gv) then scanRecords rest gv tmp
          else
            tmp' <- cacheAnnotationFromMD_MDNode (Some elem) tmp ;;
            scanRecords rest gv tmp'
      end
  end.

Definition cacheAnnotationFromMD (m : Module) (gv : GlobalValue)
    (AC : AnnotationCache) : result AnnotationCache :=
  match getNamedMetadata m "nvvm.annotations" with
  | None => Ok AC
  | Some NMD =>
      tmp <- scanRecords NMD (gv_addr gv) ∅ ;;
      if bool_decide (tmp = ∅) then Ok AC
      else
        match Cache AC !! mod_addr m with
        | Some g =>
            Ok {| Cache := <[mod_addr m := <[gv_addr gv := tmp]> g]> (Cache AC) |}
        | None =>
            Ok {| Cache := <[mod_addr m := {[gv_addr gv := tmp]}]> (Cache AC) |}
        end
  end.

(** ** Lookup: [findOneNVVMAnnotation], [findAllNVVMAnnotation] *)

(** The test both functions start with: is there no entry for the module,
    or none for the entity in the module's entry? *)
Definition notCached (gv : GlobalValue) (AC : AnnotationCache) : bool :=
  match Cache AC !! mod_addr (getParent gv) with
  | None => true
  | Some g =>
      match g !! gv_addr gv with
      | None => true
      | Some _ => false
      end
  end.

Definition populateIfMissing (gv : GlobalValue) (AC : AnnotationCache)
  : result AnnotationCache :=
  if notCached gv AC then cacheAnnotationFromMD (getParent gv) gv AC
  else Ok AC.

(** [AC.Cache[m][gv]]: [std::map::operator[]] inserts a default value
    for a key that is absent, at both levels. *)
Definition Cache_subscript (m gv : addr) (AC : AnnotationCache)
  : key_val_pair_t * AnnotationCache :=
  let g := default ∅ (Cache AC !! m) in
  let kv := default ∅ (g !! gv) in
  (kv, {| Cache := <[m := <[gv := kv]> g]> (Cache AC) |}).

(** The [bool] result and the reference parameter [retval] are one
    [option]: [Some v] is [true] with [retval = v], [None] is [false]
    with [retval] untouched. *)
Definition findOneNVVMAnnotation (gv : GlobalValue) (prop : string)
    (AC : AnnotationCache) : result (option Z * AnnotationCache) :=
  AC1 <- populateIfMissing gv AC ;;
  let '(kv, AC2) := Cache_subscript (mod_addr (getParent gv)) (gv_addr gv) AC1 in
  match kv !! prop with
  | None => Ok (None, AC2)
  | Some [] => UndefinedBehavior
  | Some (v :: _) => Ok (Some v, AC2)
  end.

Definition findAllNVVMAnnotation (gv : GlobalValue) (prop : string)
    (AC : AnnotationCache) : result (option (list Z) * AnnotationCache) :=
  AC1 <- populateIfMissing gv AC ;;
  let '(kv, AC2) := Cache_subscript (mod_addr (getParent gv)) (gv_addr gv) AC1 in
  match kv !! prop with
  | None => Ok (None, AC2)
  | Some vs => Ok (Some vs, AC2)
  end.

(** ** Boolean predicates *)

(** The pattern of [isTexture], [isSurface] and [isManaged]. *)
Definition flagOnGlobal (name msg : string) (val : Value)
    (AC : AnnotationCache) : result (bool * AnnotationCache) :=
  match dyn_cast_GlobalValue val with
  | Some gv =>
      r <- findOneNVVMAnnotation gv name AC ;;
      match r with
      | (Some annot, AC') => assert (annot =? 1) msg ;;; Ok (true, AC')
      | (None, AC') => Ok (false, AC')
      end
  | None => Ok (false, AC)
  end.

Definition isTexture : Value → AnnotationCache → result (bool * AnnotationCache) :=
  flagOnGlobal "texture" "Unexpected annotation on a texture symbol".

Definition isSurface : Value → AnnotationCache → result (bool * AnnotationCache) :=
  flagOnGlobal "surface" "Unexpected annotation on a surface symbol".

Definition isManaged : Value → AnnotationCache → result (bool * AnnotationCache) :=
  flagOnGlobal "managed" "Unexpected annotation on a managed symbol".

Definition is_contained (annot : list Z) (x : Z) : bool :=
  existsb (Z.eqb x) annot.

(** The pattern of the image predicates and of the second half of
    [isSampler]: is the position of the argument in the list recorded for
    its function? *)
Definition markedArgument (name : string) (val : Value)
    (AC : AnnotationCache) : result (bool * AnnotationCache) :=
  match dyn_cast_Argument val with
  | Some arg =>
      r <- findAllNVVMAnnotation (fn_gv (arg_getParent arg)) name AC ;;
      match r with
      | (Some annot, AC') => Ok (is_contained annot (getArgNo arg), AC')
      | (None, AC') => Ok (false, AC')
      end
  | None => Ok (false, AC)
  end.

Definition isSampler (val : Value) (AC : AnnotationCache)
  : result (bool * AnnotationCache) :=
  match dyn_cast_GlobalValue val with
  | Some gv =>
      r <- findOneNVVMAnnotation gv "sampler" AC ;;
      match r with
      | (Some annot, AC') =>
          assert (annot =? 1) "Unexpected annotation on a sampler symbol" ;;;
          Ok (true, AC')
      | (None, AC') => markedArgument "sampler" val AC'
      end
  | None => markedArgument "sampler" val AC
  end.

Definition isImageReadOnly : Value → AnnotationCache → result (bool * AnnotationCache) :=
  markedArgument "rdoimage".

Definition isImageWriteOnly : Value → AnnotationCache → result (bool * AnnotationCache) :=
  markedArgument "wroimage".

Definition isImageReadWrite : Value → AnnotationCache → result (bool * AnnotationCache) :=
  markedArgument "rdwrimage".

(** ** Kernel detection and alignment *)

Definition isKernelFunction (F : Function) (AC : AnnotationCache)
  : result (bool * AnnotationCache) :=
  r <- findOneNVVMAnnotation (fn_gv F) "kernel" AC ;;
  match r with
  | (None, AC') => Ok (getCallingConv F =? PTX_Kernel, AC')
  | (Some x, AC') => Ok (x =? 1, AC')
  end.

(** [for (unsigned V : Vs) if ((V >> 16) == Index) return Align(V & 0xFFFF);] *)
Fixpoint alignInList (Vs : list Z) (Index : Z) : result MaybeAlign :=
  match Vs with
  | [] => Ok None
  | V :: rest =>
      if Z.shiftr V 16 =? Index then
        a <- mkAlign (Z.land V 65535) ;; Ok (Some a)
      else alignInList rest Index
  end.

Definition getAlign_Function (F : Function) (Index : Z) (AC : AnnotationCache)
  : result (MaybeAlign * AnnotationCache) :=
  match fn_getStackAlignment F Index with
  | Some StackAlign => Ok (Some StackAlign, AC)
  | None =>
      r <- findAllNVVMAnnotation (fn_gv F) "align" AC ;;
      match r with
      | (None, AC') => Ok (None, AC')
      | (Some Vs, AC') => a <- alignInList Vs Index ;; Ok (a, AC')
      end
  end.

(** The loop over the operands of the [callalign] node. *)
Fixpoint alignInCallalign (ops : list (option Metadata)) (Index : Z)
  : result MaybeAlign :=
  match ops with
  | [] => Ok None
  | op :: rest =>
      CI <- dyn_extract_ConstantInt op ;;
      match CI with
      | Some c =>
          let V := to_unsigned (getZExtValue c) in
          if Z.shiftr V 16 =? Index then
            a <- mkAlign (Z.land V 65535) ;; Ok (Some a)
          else if Z.shiftr V 16 >? Index then Ok None
          else alignInCallalign rest Index
      | None => alignInCallalign rest Index
      end
  end.

Definition getAlign_CallInst (I : CallInst) (Index : Z) : result MaybeAlign :=
  match call_getStackAlignment I Index with
  | Some StackAlign => Ok (Some StackAlign)
  | None =>
      match getMetadata I "callalign" with
      | Some alignNode => alignInCallalign alignNode Index
      | None => Ok None
      end
  end.

(** * Properties *)

(** ** What a record says, read off its shape *)

Definition isName (op : option Metadata) : bool :=
  match op with
  | Some (MDString _) => true
  | _ => false
  end.

Definition isIntValue (op : option Metadata) : bool :=
  match op with
  | Some (ConstantAsMetadata (ConstantInt _)) => true
  | _ => false
  end.

(** The (name, integer constant) pairs of a list of operands that
    alternates names and integer constants; [None] for any other list. *)
Fixpoint parsePairs (ops : list (option Metadata)) : option (list (string * Z)) :=
  match ops with
  | [] => Some []
  | Some (MDString k) :: Some (ConstantAsMetadata (ConstantInt v)) :: rest =>
      match parsePairs rest with
      | Some ps => Some ((k, v) :: ps)
      | None => None
      end
  | _ => None
  end.

Definition pairsOfRecord (md : MDNode) : list (string * Z) :=
  default [] (parsePairs (drop 1 md)).

Definition wellFormedRecord (md : MDNode) : bool :=
  (Z.of_nat (length md) mod 2 =? 1) &&
  match parsePairs (drop 1 md) with Some _ => true | None => false end.

(** A record is malformed when its number of elements is even, an element
    at a name position (1, 3, ...) is not a textual identifier, or an
    element at a value position (2, 4, ...) is not an integer constant. *)
Definition malformedRecord (md : MDNode) : Prop :=
  Nat.even (length md) = true ∨
  (∃ i op, Nat.odd i = true ∧ md !! i = Some op ∧ isName op = false) ∨
  (∃ i op, i ≠ 0%nat ∧ Nat.even i = true ∧ md !! i = Some op ∧
           isIntValue op = false).

(** Recording a list of pairs, in order. *)
Definition recordPairs (retval : key_val_pair_t) (ps : list (string * Z))
  : key_val_pair_t :=
  foldl (λ r p, recordValue r p.1 p.2) retval ps.

(** The values a list of pairs gives to one name, in order, as they are
    stored. *)
Fixpoint valuesOf (prop : string) (ps : list (string * Z)) : list Z :=
  match ps with
  | [] => []
  | (k, v) :: rest =>
      if decide (k = prop) then to_unsigned (getZExtValue v) :: valuesOf prop rest
      else valuesOf prop rest
  end.

(** ** What the module says about an entity *)

Definition subjectOf (elem : MDNode) : option addr :=
  match elem with
  | op0 :: _ => dyn_extract_or_null_GlobalValue op0
  | [] => None
  end.

(** The pairs of all the records whose subject is [gv], in the order of
    the list. *)
Fixpoint entityPairs (gv : addr) (NMD : NamedMDNode) : list (string * Z) :=
  match NMD with
  | [] => []
  | elem :: rest =>
      if decide (subjectOf elem = Some gv)
      then pairsOfRecord elem ++ entityPairs gv rest
      else entityPairs gv rest
  end.

(** Every record has a subject operand, and those of [gv] are well formed. *)
Fixpoint scannable (gv : addr) (NMD : NamedMDNode) : bool :=
  match NMD with
  | [] => true
  | elem :: rest =>
      match elem with
      | [] => false
      | _ :: _ =>
          (if decide (subjectOf elem = Some gv) then wellFormedRecord elem
           else true) && scannable gv rest
      end
  end.

Definition annotationsOf (gv : GlobalValue) : list (string * Z) :=
  match getNamedMetadata (getParent gv) "nvvm.annotations" with
  | None => []
  | Some NMD => entityPairs (gv_addr gv) NMD
  end.

Definition wellAnnotated (gv : GlobalValue) : bool :=
  match getNamedMetadata (getParent gv) "nvvm.annotations" with
  | None => true
  | Some NMD => scannable (gv_addr gv) NMD
  end.

(** The values recorded for a property of an entity, in encounter order. *)
Definition recordedValues (gv : GlobalValue) (prop : string) : list Z :=
  valuesOf prop (annotationsOf gv).

Definition propertyMapOf (gv : GlobalValue) : key_val_pair_t :=
  recordPairs ∅ (annotationsOf gv).

(** ** The cache, seen from outside *)

Definition lookupEntry (m gv : addr) (AC : AnnotationCache)
  : option key_val_pair_t :=
  match Cache AC !! m with
  | Some g => g !! gv
  | None => None
  end.

(** What the cache holds for [gv], if anything, is what the module says. *)
Definition coherentAt (gv : GlobalValue) (AC : AnnotationCache) : bool :=
  match lookupEntry (mod_addr (getParent gv)) (gv_addr gv) AC with
  | Some kv => bool_decide (kv = propertyMapOf gv)
  | None => true
  end.

(** The cache after a lookup for [gv]. *)
Definition cacheAfterLookup (gv : GlobalValue) (AC : AnnotationCache)
  : AnnotationCache :=
  let m := mod_addr (getParent gv) in
  {| Cache := <[m := <[gv_addr gv := propertyMapOf gv]>
                       (default ∅ (Cache AC !! m))]> (Cache AC) |}.

(** ** Sample data and auxiliary notions *)

Definition mdGlobal (a : addr) : option Metadata :=
  Some (ConstantAsMetadata (GlobalValueC a)).
Arguments mdGlobal a%_N.
Definition mdName (s : string) : option Metadata := Some (MDString s).
Definition mdInt (v : Z) : option Metadata :=
  Some (ConstantAsMetadata (ConstantInt v)).

(** A module at address 1.  Entity 10 has two [maxntidx] records with a
    dangling record between them, entity 11 is annotated as a kernel,
    entity 12 has no annotation at all, entity 13 has a "kernel"
    annotation that is not 1, entity 14 has legacy alignments for the
    parameters 2 and 1 (in this order), entity 15 has image parameters,
    entity 16 is a texture and entity 17 carries a texture annotation that
    is not 1. *)
Definition sampleModule : Module :=
  {| mod_addr := 1%N;
     named_metadata :=
       [("llvm.ident", [[mdName "clang"]]);
        ("nvvm.annotations",
         [[mdGlobal 10; mdName "maxntidx"; mdInt 4];
          [None; mdName "maxntidx"; mdInt 7];
          [mdGlobal 10; mdName "maxntidx"; mdInt 8];
          [mdGlobal 11; mdName "kernel"; mdInt 1; mdName "reqntidx"; mdInt 32];
          [mdGlobal 11; mdName "reqntidy"; mdInt 4];
          [mdGlobal 13; mdName "kernel"; mdInt 0];
          [mdGlobal 14; mdName "align"; mdInt 131076; mdName "align"; mdInt 65544];
          [mdGlobal 15; mdName "rdoimage"; mdInt 0; mdName "rdoimage"; mdInt 2];
          [mdGlobal 16; mdName "texture"; mdInt 1];
          [mdGlobal 17; mdName "texture"; mdInt 2]])] |}.

Definition sampleEntity (a : addr) : GlobalValue :=
  {| gv_addr := a; getParent := sampleModule |}.
Arguments sampleEntity a%_N.

(** The population scan for [gv] ends with an empty map (or there is no
    list to scan). *)
Definition scanIsEmpty (gv : GlobalValue) : Prop :=
  match getNamedMetadata (getParent gv) "nvvm.annotations" with
  | None => True
  | Some NMD => scanRecords NMD (gv_addr gv) ∅ = Ok ∅
  end.

(** A cache with entries for the sample module and for a module at
    address 2. *)
Definition sampleCache : AnnotationCache :=
  {| Cache := {[ 1%N := {[ 11%N := {[ "kernel" := [1] ]} ]};
                 2%N := {[ 20%N := ∅ ]} ]} |}.

Definition sampleFunction (a : addr) (cc : Z) : Function :=
  {| fn_gv := sampleEntity a; getCallingConv := cc;
     fn_getStackAlignment := λ _, None |}.
Arguments sampleFunction a%_N cc%_Z.

(** An operand of a [callalign] node that the scan steps over: anything
    that is not an integer constant (but not null), or an integer constant
    whose index is below the one asked for. *)
Definition passedOver (Index : Z) (op : option Metadata) : bool :=
  match op with
  | None => false
  | Some (ConstantAsMetadata (ConstantInt c)) =>
      Z.shiftr (to_unsigned (getZExtValue c)) 16 <? Index
  | Some _ => true
  end.

(** A function at entity 14 of the sample module (legacy "align" values
    (2 << 16 | 4) and (1 << 16 | 8)) with the given attribute. *)
Definition alignedFunction (attr : Z → MaybeAlign) : Function :=
  {| fn_gv := sampleEntity 14; getCallingConv := 0;
     fn_getStackAlignment := attr |}.

Definition alignedCall (attr : Z → MaybeAlign) (md : list (string * MDNode))
  : CallInst :=
  {| call_getStackAlignment := attr; call_metadata := md |}.

Definition attr16At1 (Index : Z) : MaybeAlign :=
  if Index =? 1 then Some {| align_value := 16 |} else None.

Definition sampleArgument (a : addr) (n : Z) : Argument :=
  {| arg_getParent := sampleFunction a 0; getArgNo := n |}.
Arguments sampleArgument a%_N n%_Z.

(** The reader as the specification words it: the integer value of each
    pair is appended, as it is, to the sequence of the pair's name. *)
Definition appendPairValues (retval : gmap string (list Z))
    (ps : list (string * Z)) : gmap string (list Z) :=
  foldl (λ r p, <[p.1 := default [] (r !! p.1) ++ [p.2]]> r) retval ps.

(** ** The rest of the file: accessors, [isImage], no-return emission *)

(** The launch-bound accessors: one [findOneNVVMAnnotation] each. *)
Definition getMaxNTIDx (F : Function) := findOneNVVMAnnotation (fn_gv F) "maxntidx".
Definition getMaxNTIDy (F : Function) := findOneNVVMAnnotation (fn_gv F) "maxntidy".
Definition getMaxNTIDz (F : Function) := findOneNVVMAnnotation (fn_gv F) "maxntidz".
Definition getMaxClusterRank (F : Function) := findOneNVVMAnnotation (fn_gv F) "maxclusterrank".
Definition getReqNTIDx (F : Function) := findOneNVVMAnnotation (fn_gv F) "reqntidx".
Definition getReqNTIDy (F : Function) := findOneNVVMAnnotation (fn_gv F) "reqntidy".
Definition getReqNTIDz (F : Function) := findOneNVVMAnnotation (fn_gv F) "reqntidz".
Definition getMinCTASm (F : Function) := findOneNVVMAnnotation (fn_gv F) "minctasm".
Definition getMaxNReg (F : Function) := findOneNVVMAnnotation (fn_gv F) "maxnreg".

(** [isImageReadOnly(val) || isImageWriteOnly(val) || isImageReadWrite(val)]:
    a later predicate runs only when the earlier ones were false. *)
Definition isImage (val : Value) (AC : AnnotationCache)
  : result (bool * AnnotationCache) :=
  r1 <- isImageReadOnly val AC ;;
  match r1 with
  | (true, AC1) => Ok (true, AC1)
  | (false, AC1) =>
      r2 <- isImageWriteOnly val AC1 ;;
      match r2 with
      | (true, AC2) => Ok (true, AC2)
      | (false, AC2) => isImageReadWrite val AC2
      end
  end.

(** What [shouldEmitPTXNoReturn] is asked about: a function or a call,
    each with its no-return attribute and whether its return type is
    [void], or some other value. *)
Inductive EmitSubject : Type :=
| SubjectFunction (F : Function) (doesNotReturn isVoidTy : bool)
| SubjectCallInst (I : CallInst) (doesNotReturn isVoidTy : bool)
| SubjectOther.

(** [shouldEmitPTXNoReturn(V, TM)]; [hasNoReturn] is what the subtarget
    of [TM] answers. *)
Definition shouldEmitPTXNoReturn (V : EmitSubject) (hasNoReturn : bool)
    (AC : AnnotationCache) : result (bool * AnnotationCache) :=
  if negb hasNoReturn then Ok (false, AC)
  else
    match V with
    | SubjectOther =>
        AssertionFailure "Expect either a call instruction or a function"
    | SubjectCallInst CallI doesNotReturn isVoidTy =>
        Ok (doesNotReturn && isVoidTy, AC)
    | SubjectFunction F doesNotReturn isVoidTy =>
        if doesNotReturn then
          if isVoidTy then
            r <- isKernelFunction F AC ;;
            match r with
            | (k, AC') => Ok (negb k, AC')
            end
          else Ok (false, AC)
        else Ok (false, AC)
    end.

(** ** Invariants of the stored data *)

(** Every stored sequence has an element, and every stored value is an
    [unsigned]. *)
Definition mapInv (kv : gmap string (list Z)) : Prop :=
  ∀ k vs, kv !! k = Some vs →
          vs ≠ [] ∧ Forall (λ v, 0 ≤ v < 2 ^ 32) vs.

Definition cacheInv (AC : AnnotationCache) : Prop :=
  ∀ m gv kv, lookupEntry m gv AC = Some kv → mapInv kv.



(** The indexes of a list of packed values never decrease. *)
Fixpoint indexSorted (Vs : list Z) : Prop :=
  match Vs with
  | [] => True
  | V :: rest =>
      Forall (λ W, Z.shiftr V 16 ≤ Z.shiftr W 16) rest ∧ indexSorted rest
  end.

(** Mapping over a result. *)
Definition result_map {A B} (f : A → B) (r : result A) : result B :=
  x <- r ;; Ok (f x).

(** ** The reader *)

Lemma pair_ind {A} (P : list A → Prop) :
  P [] → (∀ x, P [x]) → (∀ x y l, P l → P (x :: y :: l)) → ∀ l, P l.
Proof.
  intros H0 H1 H2.
  assert (H : ∀ l, P l ∧ ∀ x, P (x :: l)).
  { induction l as [|y l [IH1 IH2]]; split; auto. }
  intros l. apply H.
Qed.

Lemma readPairs_Ok ops : ∀ retval ps,
  parsePairs ops = Some ps →
  readPairs ops retval = Ok (recordPairs retval ps).
Proof.
  induction ops as [| x | x y l IH] using pair_ind; intros retval ps Hp.
  - injection Hp as <-. reflexivity.
  - destruct x as [[]|]; discriminate.
  - cbn in Hp.
    destruct x as [[k| |]|]; try discriminate.
    destruct y as [[|[v| |]|]|]; try discriminate.
    destruct (parsePairs l) as [ps'|] eqn:E; [|discriminate].
    injection Hp as <-. cbn. apply IH. reflexivity.
Qed.

Lemma readPairs_fatal ops : ∀ retval,
  parsePairs ops = None → isFatal (readPairs ops retval).
Proof.
  induction ops as [| x | x y l IH] using pair_ind; intros retval Hp.
  - discriminate.
  - destruct x as [[k| |]|]; cbn; eexists; reflexivity.
  - cbn in Hp.
    destruct x as [[k| |]|]; try (cbn; eexists; reflexivity).
    destruct y as [[|[v| |]|]|]; try (cbn; eexists; reflexivity).
    destruct (parsePairs l) as [ps'|] eqn:E; [discriminate|].
    cbn. apply IH. reflexivity.
Qed.

Lemma reader_Ok md retval :
  wellFormedRecord md = true →
  cacheAnnotationFromMD_MDNode (Some md) retval
  = Ok (recordPairs retval (pairsOfRecord md)).
Proof.
  unfold wellFormedRecord, cacheAnnotationFromMD_MDNode, pairsOfRecord.
  intros [Hn Hp]%andb_true_iff. rewrite Hn. cbn.
  destruct (parsePairs (drop 1 md)) as [ps|] eqn:E; [|discriminate].
  cbn. apply readPairs_Ok. exact E.
Qed.

Lemma reader_fatal md retval :
  wellFormedRecord md = false →
  isFatal (cacheAnnotationFromMD_MDNode (Some md) retval).
Proof.
  unfold wellFormedRecord, cacheAnnotationFromMD_MDNode.
  intros H.
  destruct (Z.of_nat (length md) mod 2 =? 1) eqn:Hn; cbn.
  - destruct (parsePairs (drop 1 md)) eqn:E; [discriminate|].
    apply readPairs_fatal. assumption.
  - eexists; reflexivity.
Qed.

Lemma mod2_odd (n : nat) : (Z.of_nat n mod 2 =? 1) = Nat.odd n.
Proof.
  pose proof (Nat.div2_odd n) as H.
  destruct (Nat.odd n); cbn [Nat.b2n] in H.
  - replace (Z.of_nat n) with (1 + Z.of_nat (Nat.div2 n) * 2) by lia.
    rewrite Z_mod_plus_full. reflexivity.
  - replace (Z.of_nat n) with (0 + Z.of_nat (Nat.div2 n) * 2) by lia.
    rewrite Z_mod_plus_full. reflexivity.
Qed.

Lemma parsePairs_None_iff ops :
  parsePairs ops = None ↔
  Nat.odd (length ops) = true ∨
  (∃ j op, Nat.even j = true ∧ ops !! j = Some op ∧ isName op = false) ∨
  (∃ j op, Nat.odd j = true ∧ ops !! j = Some op ∧ isIntValue op = false).
Proof.
  induction ops as [| x | x y l IH] using pair_ind.
  - split; [discriminate|].
    intros [H|[(j & op & _ & H & _)|(j & op & _ & H & _)]]; discriminate.
  - split; [left; reflexivity|]. intros _.
    destruct x as [[]|]; reflexivity.
  - split.
    + intros Hp.
      destruct (isName x) eqn:Hx;
        [|right; left; exists 0%nat, x; repeat split; assumption].
      destruct (isIntValue y) eqn:Hy;
        [|right; right; exists 1%nat, y; repeat split; assumption].
      destruct x as [[k| |]|]; try discriminate.
      destruct y as [[|[v| |]|]|]; try discriminate.
      cbn in Hp. destruct (parsePairs l) eqn:E; [discriminate|].
      destruct (proj1 IH eq_refl)
        as [H|[(j & op & Hj & H & Hop)|(j & op & Hj & H & Hop)]].
      * left. exact H.
      * right; left. exists (S (S j)), op. repeat split; assumption.
      * right; right. exists (S (S j)), op. repeat split; assumption.
    + intros H.
      destruct x as [[k| |]|]; try reflexivity.
      destruct y as [[|[v| |]|]|]; try reflexivity.
      cbn. replace (parsePairs l) with (@None (list (string * Z)));
        [reflexivity|].
      symmetry. apply IH.
      destruct H as [H|[(j & op & Hj & H & Hop)|(j & op & Hj & H & Hop)]].
      * left. exact H.
      * right; left. destruct j as [|[|j]].
        -- injection H as <-. discriminate.
        -- discriminate.
        -- exists j, op. repeat split; assumption.
      * right; right. destruct j as [|[|j]].
        -- discriminate.
        -- injection H as <-. discriminate.
        -- exists j, op. repeat split; assumption.
Qed.

Lemma wellFormedRecord_false_iff md :
  wellFormedRecord md = false ↔ malformedRecord md.
Proof.
  unfold wellFormedRecord, malformedRecord. rewrite mod2_odd.
  destruct md as [|s ops].
  - split; [left; reflexivity|reflexivity].
  - cbn [drop length]. rewrite drop_0, Nat.odd_succ, Nat.even_succ.
    split.
    + intros H. destruct (Nat.even (length ops)) eqn:Hlen.
      * cbn in H. destruct (parsePairs ops) eqn:E; [discriminate|].
        apply parsePairs_None_iff in E.
        destruct E as [E|[(j & op & Hj & E & Hop)|(j & op & Hj & E & Hop)]].
        -- unfold Nat.odd in E. rewrite Hlen in E. discriminate.
        -- right; left. exists (S j), op. rewrite Nat.odd_succ. auto.
        -- right; right. exists (S j), op. rewrite Nat.even_succ. auto.
      * left. unfold Nat.odd. rewrite Hlen. reflexivity.
    + intros H. destruct (Nat.even (length ops)) eqn:Hlen; [|reflexivity].
      cbn. replace (parsePairs ops) with (@None (list (string * Z)));
        [reflexivity|].
      symmetry. apply parsePairs_None_iff.
      destruct H as [H|[(j & op & Hj & H & Hop)|(j & op & Hn & Hj & H & Hop)]].
      * unfold Nat.odd in H. rewrite Hlen in H. discriminate.
      * right; left. destruct j as [|j]; [discriminate|].
        rewrite Nat.odd_succ in Hj. exists j, op. auto.
      * right; right. destruct j as [|j]; [congruence|].
        rewrite Nat.even_succ in Hj. exists j, op. auto.
Qed.

(** ** The property map built by recording pairs *)

Lemma recordValue_lookup_eq (r : key_val_pair_t) k v :
  recordValue r k v !! k
  = Some (default [] (r !! k) ++ [to_unsigned (getZExtValue v)]).
Proof.
  unfold recordValue. destruct (r !! k) eqn:E; rewrite lookup_insert_eq;
    reflexivity.
Qed.

Lemma recordValue_lookup_ne (r : key_val_pair_t) k k' v :
  k' ≠ k → recordValue r k' v !! k = r !! k.
Proof.
  intros Hne. unfold recordValue.
  destruct (r !! k'); rewrite lookup_insert_ne; auto.
Qed.

Lemma recordPairs_lookup ps : ∀ (r : key_val_pair_t) k,
  recordPairs r ps !! k
  = match valuesOf k ps with
    | [] => r !! k
    | vs => Some (default [] (r !! k) ++ vs)
    end.
Proof.
  induction ps as [|[k' v] ps IH]; intros r k; [reflexivity|].
  unfold recordPairs in *. cbn [foldl valuesOf fst snd]. rewrite IH.
  destruct (decide (k' = k)) as [->|Hne].
  - rewrite recordValue_lookup_eq.
    destruct (valuesOf k ps); cbn [default id]; [reflexivity|].
    rewrite <- app_assoc. reflexivity.
  - rewrite recordValue_lookup_ne by assumption. reflexivity.
Qed.

Lemma recordPairs_app (r : key_val_pair_t) ps qs :
  recordPairs r (ps ++ qs) = recordPairs (recordPairs r ps) qs.
Proof. unfold recordPairs. apply foldl_app. Qed.

Lemma recordPairs_empty_iff ps :
  recordPairs ∅ ps = ∅ ↔ ps = [].
Proof.
  split; [|intros ->; reflexivity].
  destruct ps as [|[k v] ps]; [reflexivity|]. intros H.
  assert (E : recordPairs ∅ ((k, v) :: ps) !! k = None)
    by (rewrite H; apply lookup_empty).
  rewrite recordPairs_lookup in E. cbn [valuesOf] in E.
  rewrite decide_True in E by reflexivity. discriminate.
Qed.

Lemma propertyMapOf_lookup gv prop :
  propertyMapOf gv !! prop
  = match recordedValues gv prop with
    | [] => None
    | vs => Some vs
    end.
Proof.
  unfold propertyMapOf, recordedValues. rewrite recordPairs_lookup.
  rewrite lookup_empty. reflexivity.
Qed.

(** ** Population *)

Lemma scanRecords_Ok NMD : ∀ gv tmp,
  scannable gv NMD = true →
  scanRecords NMD gv tmp = Ok (recordPairs tmp (entityPairs gv NMD)).
Proof.
  induction NMD as [|elem rest IH]; intros gv tmp Hs; [reflexivity|].
  destruct elem as [|op0 ops]; [discriminate|].
  cbn [scannable] in Hs. apply andb_true_iff in Hs as [Hwf Hrest].
  cbn [scanRecords entityPairs]. unfold getOperand. cbn [lookup list_lookup].
  cbn [result_bind]. cbn [subjectOf] in *.
  destruct (dyn_extract_or_null_GlobalValue op0) as [entity|] eqn:E.
  - destruct (decide (Some entity = Some gv)) as [Heq|Hne].
    + injection Heq as ->. rewrite N.eqb_refl. cbn [negb].
      rewrite reader_Ok by assumption. cbn [result_bind].
      rewrite recordPairs_app. apply IH. assumption.
    + destruct (N.eqb_spec entity gv) as [->|_]; [congruence|].
      cbn [negb]. apply IH. assumption.
  - rewrite decide_False by discriminate. apply IH. assumption.
Qed.

Lemma scan_module gv :
  wellAnnotated gv = true →
  match getNamedMetadata (getParent gv) "nvvm.annotations" with
  | None => propertyMapOf gv = ∅
  | Some NMD => scanRecords NMD (gv_addr gv) ∅ = Ok (propertyMapOf gv)
  end.
Proof.
  unfold wellAnnotated, propertyMapOf, annotationsOf.
  destruct (getNamedMetadata (getParent gv) "nvvm.annotations") as [NMD|];
    [|reflexivity].
  apply scanRecords_Ok.
Qed.

Lemma cacheAnnotationFromMD_Ok gv AC :
  wellAnnotated gv = true →
  cacheAnnotationFromMD (getParent gv) gv AC
  = Ok (if bool_decide (propertyMapOf gv = ∅) then AC
        else {| Cache := <[mod_addr (getParent gv) :=
                            <[gv_addr gv := propertyMapOf gv]>
                              (default ∅ (Cache AC !! mod_addr (getParent gv)))]>
                          (Cache AC) |}).
Proof.
  intros Hwf. pose proof (scan_module gv Hwf) as Hscan.
  unfold cacheAnnotationFromMD.
  destruct (getNamedMetadata (getParent gv) "nvvm.annotations") as [NMD|].
  - rewrite Hscan. cbn [result_bind].
    destruct (bool_decide (propertyMapOf gv = ∅)); [reflexivity|].
    destruct (Cache AC !! mod_addr (getParent gv)); cbn [default id];
      [reflexivity|].
    rewrite insert_empty. reflexivity.
  - rewrite Hscan. rewrite bool_decide_eq_true_2 by reflexivity. reflexivity.
Qed.

Lemma populate_subscript gv AC :
  wellAnnotated gv = true →
  coherentAt gv AC = true →
  ∃ AC1, populateIfMissing gv AC = Ok AC1 ∧
         Cache_subscript (mod_addr (getParent gv)) (gv_addr gv) AC1
         = (propertyMapOf gv, cacheAfterLookup gv AC).
Proof.
  intros Hwf Hcoh.
  unfold populateIfMissing, notCached, coherentAt, lookupEntry in *.
  unfold cacheAfterLookup, Cache_subscript.
  set (m := mod_addr (getParent gv)) in *.
  set (a := gv_addr gv) in *.
  destruct (Cache AC !! m) as [g|] eqn:Em.
  - destruct (g !! a) as [kv|] eqn:Ea.
    + apply bool_decide_eq_true in Hcoh. subst kv.
      eexists. split; [reflexivity|]. rewrite Em. cbn [default id]. rewrite Ea.
      reflexivity.
    + rewrite cacheAnnotationFromMD_Ok by assumption. fold m a. rewrite Em.
      eexists. split; [reflexivity|]. cbn [default id].
      destruct (bool_decide (propertyMapOf gv = ∅)) eqn:Eb.
      * apply bool_decide_eq_true in Eb. rewrite Em. cbn [default id].
        rewrite Ea, Eb. reflexivity.
      * cbn [Cache]. rewrite lookup_insert_eq. cbn [default id].
        rewrite lookup_insert_eq. cbn [default id].
        rewrite !insert_insert_eq. reflexivity.
  - rewrite cacheAnnotationFromMD_Ok by assumption. fold m a. rewrite Em.
    eexists. split; [reflexivity|]. cbn [default id].
    destruct (bool_decide (propertyMapOf gv = ∅)) eqn:Eb.
    * apply bool_decide_eq_true in Eb. rewrite Em. cbn [default id].
      rewrite lookup_empty, Eb. reflexivity.
    * cbn [Cache]. rewrite lookup_insert_eq. cbn [default id].
      rewrite lookup_insert_eq. cbn [default id].
      rewrite !insert_insert_eq. reflexivity.
Qed.

Lemma findAllNVVMAnnotation_spec gv prop AC :
  wellAnnotated gv = true →
  coherentAt gv AC = true →
  findAllNVVMAnnotation gv prop AC
  = Ok (match recordedValues gv prop with [] => None | vs => Some vs end,
        cacheAfterLookup gv AC).
Proof.
  intros Hwf Hcoh.
  destruct (populate_subscript gv AC Hwf Hcoh) as (AC1 & Hp & Hs).
  unfold findAllNVVMAnnotation. rewrite Hp. cbn [result_bind]. rewrite Hs.
  rewrite propertyMapOf_lookup.
  destruct (recordedValues gv prop); reflexivity.
Qed.

Lemma findOneNVVMAnnotation_spec gv prop AC :
  wellAnnotated gv = true →
  coherentAt gv AC = true →
  findOneNVVMAnnotation gv prop AC
  = Ok (head (recordedValues gv prop), cacheAfterLookup gv AC).
Proof.
  intros Hwf Hcoh.
  destruct (populate_subscript gv AC Hwf Hcoh) as (AC1 & Hp & Hs).
  unfold findOneNVVMAnnotation. rewrite Hp. cbn [result_bind]. rewrite Hs.
  rewrite propertyMapOf_lookup.
  destruct (recordedValues gv prop); reflexivity.
Qed.

(** ** Empty property maps *)

Lemma cacheAnnotationFromMD_empty gv AC :
  scanIsEmpty gv → cacheAnnotationFromMD (getParent gv) gv AC = Ok AC.
Proof.
  unfold scanIsEmpty, cacheAnnotationFromMD.
  destruct (getNamedMetadata (getParent gv) "nvvm.annotations");
    [|reflexivity].
  intros ->. reflexivity.
Qed.

Lemma Cache_subscript_missing gv AC :
  notCached gv AC = true →
  (Cache_subscript (mod_addr (getParent gv)) (gv_addr gv) AC).1 = ∅.
Proof.
  unfold notCached, Cache_subscript. cbn [fst].
  destruct (Cache AC !! mod_addr (getParent gv)) as [g|]; cbn [default id].
  - destruct (g !! gv_addr gv); [discriminate|reflexivity].
  - rewrite lookup_empty. reflexivity.
Qed.

Lemma Cache_subscript_entry m gv AC :
  lookupEntry m gv (Cache_subscript m gv AC).2
  = Some (Cache_subscript m gv AC).1.
Proof.
  unfold lookupEntry, Cache_subscript. cbn [fst snd Cache].
  rewrite lookup_insert_eq. apply lookup_insert_eq.
Qed.

Lemma Cache_subscript_present m gv AC kv :
  lookupEntry m gv AC = Some kv → Cache_subscript m gv AC = (kv, AC).
Proof.
  unfold lookupEntry, Cache_subscript. destruct AC as [C]. cbn [Cache].
  destruct (C !! m) as [g|] eqn:Em; [|discriminate].
  intros Ea. cbn [default id]. rewrite Ea. cbn [default id].
  rewrite (insert_id g) by assumption. rewrite insert_id by assumption.
  reflexivity.
Qed.

Lemma notCached_lookupEntry gv AC :
  notCached gv AC
  = match lookupEntry (mod_addr (getParent gv)) (gv_addr gv) AC with
    | Some _ => false
    | None => true
    end.
Proof.
  unfold notCached, lookupEntry.
  destruct (Cache AC !! mod_addr (getParent gv)); reflexivity.
Qed.

(** C1, as amended.  When the population scan for an entity that is not
    cached yet gives an empty property map, the population itself stores
    nothing; but the lookup that ran it then reads [AC.Cache[m][gv]], which
    inserts an empty property map for the entity.  From then on the entity
    counts as cached: a later lookup scans nothing, returns absent and
    leaves the cache as it is. *)
Theorem empty_map_cached_by_lookup (gv : GlobalValue) (prop prop' : string)
    (AC : AnnotationCache)
    (Hscan : scanIsEmpty gv) (Hmiss : notCached gv AC = true) :
  cacheAnnotationFromMD (getParent gv) gv AC = Ok AC ∧
  ∃ AC2,
    findOneNVVMAnnotation gv prop AC = Ok (None, AC2) ∧
    findAllNVVMAnnotation gv prop AC = Ok (None, AC2) ∧
    lookupEntry (mod_addr (getParent gv)) (gv_addr gv) AC2 = Some ∅ ∧
    notCached gv AC2 = false ∧
    populateIfMissing gv AC2 = Ok AC2 ∧
    findOneNVVMAnnotation gv prop' AC2 = Ok (None, AC2) ∧
    findAllNVVMAnnotation gv prop' AC2 = Ok (None, AC2).
Proof.
  pose proof (cacheAnnotationFromMD_empty gv AC Hscan) as Hpop.
  split; [exact Hpop|].
  set (m := mod_addr (getParent gv)). set (a := gv_addr gv).
  exists (Cache_subscript m a AC).2.
  pose proof (Cache_subscript_missing gv AC Hmiss) as Hkv.
  pose proof (Cache_subscript_entry m a AC) as Hentry.
  fold m a in Hkv. rewrite Hkv in Hentry.
  assert (Hcached : notCached gv (Cache_subscript m a AC).2 = false).
  { rewrite notCached_lookupEntry. fold m a. rewrite Hentry. reflexivity. }
  assert (Hpop1 : populateIfMissing gv AC = Ok AC).
  { unfold populateIfMissing. rewrite Hmiss. exact Hpop. }
  assert (Hpop2 : populateIfMissing gv (Cache_subscript m a AC).2
                  = Ok (Cache_subscript m a AC).2).
  { unfold populateIfMissing. rewrite Hcached. reflexivity. }
  pose proof (Cache_subscript_present m a _ _ Hentry) as Hsub2.
  unfold findOneNVVMAnnotation, findAllNVVMAnnotation. fold m a.
  rewrite Hpop1, Hpop2. cbn [result_bind]. rewrite Hsub2.
  destruct (Cache_subscript m a AC) as [kv AC2] eqn:E. cbn [fst snd] in *.
  subst kv. rewrite !lookup_empty. repeat split; auto.
Qed.

Lemma empty_map_cached_by_lookup_witness :
  ∃ AC2,
    findOneNVVMAnnotation (sampleEntity 12) "kernel" emptyCache = Ok (None, AC2) ∧
    findOneNVVMAnnotation (sampleEntity 12) "maxnreg" AC2 = Ok (None, AC2).
Proof.
  destruct (empty_map_cached_by_lookup (sampleEntity 12) "kernel" "maxnreg"
              emptyCache) as (_ & AC2 & H1 & _ & _ & _ & _ & H2 & _).
  - vm_compute. reflexivity.
  - vm_compute. reflexivity.
  - exists AC2. split; assumption.
Defined.

(** C1, as stated, fails: after one lookup for an entity without
    annotations the cache holds an empty property map for it, and the
    entity is no longer scanned for. *)
Lemma empty_map_is_stored :
  scanIsEmpty (sampleEntity 12) ∧
  notCached (sampleEntity 12) emptyCache = true ∧
  ∃ AC2,
    findOneNVVMAnnotation (sampleEntity 12) "kernel" emptyCache = Ok (None, AC2) ∧
    lookupEntry 1%N 12%N AC2 = Some ∅ ∧
    notCached (sampleEntity 12) AC2 = false ∧
    populateIfMissing (sampleEntity 12) AC2 = Ok AC2.
Proof.
  split; [vm_compute; reflexivity|].
  split; [reflexivity|].
  eexists. split; [vm_compute; reflexivity|].
  repeat split; vm_compute; reflexivity.
Qed.

(** ** Invalidation *)

(** C2.  [clearAnnotationCache] removes the entry of the module, leaves
    the entries of every other module as they are, is the identity when
    the module has no entry, and makes the next lookup for any entity of
    the module scan the annotation list again: the lookup answers from
    the module's records whatever the cache held before. *)
Theorem clearAnnotationCache_correct (Mod other : addr) (AC : AnnotationCache)
    (gv : GlobalValue) (prop : string)
    (Hother : other ≠ Mod)
    (Hgv : mod_addr (getParent gv) = Mod)
    (Hwf : wellAnnotated gv = true) :
  let AC' := clearAnnotationCache Mod AC in
  Cache AC' !! Mod = None ∧
  Cache AC' !! other = Cache AC !! other ∧
  (Cache AC !! Mod = None → AC' = AC) ∧
  notCached gv AC' = true ∧
  populateIfMissing gv AC' = cacheAnnotationFromMD (getParent gv) gv AC' ∧
  findOneNVVMAnnotation gv prop AC'
  = Ok (head (recordedValues gv prop), cacheAfterLookup gv AC') ∧
  findAllNVVMAnnotation gv prop AC'
  = Ok (match recordedValues gv prop with [] => None | vs => Some vs end,
        cacheAfterLookup gv AC').
Proof.
  intros AC'.
  assert (Hgone : Cache AC' !! Mod = None) by apply lookup_delete_eq.
  assert (Hmiss : notCached gv AC' = true).
  { unfold notCached. rewrite Hgv, Hgone. reflexivity. }
  assert (Hcoh : coherentAt gv AC' = true).
  { unfold coherentAt, lookupEntry. rewrite Hgv, Hgone. reflexivity. }
  split; [exact Hgone|].
  split; [apply lookup_delete_ne; congruence|].
  split.
  { intros Hnone. subst AC'. unfold clearAnnotationCache.
    destruct AC as [C]. cbn [Cache] in *. rewrite delete_id by assumption.
    reflexivity. }
  split; [exact Hmiss|].
  split; [unfold populateIfMissing; rewrite Hmiss; reflexivity|].
  split.
  - apply findOneNVVMAnnotation_spec; assumption.
  - apply findAllNVVMAnnotation_spec; assumption.
Qed.

Lemma clearAnnotationCache_correct_witness :
  Cache (clearAnnotationCache 1 sampleCache) !! 1%N = None ∧
  Cache (clearAnnotationCache 1 sampleCache) !! 2%N = Cache sampleCache !! 2%N ∧
  notCached (sampleEntity 11) (clearAnnotationCache 1 sampleCache) = true ∧
  findOneNVVMAnnotation (sampleEntity 11) "reqntidx"
    (clearAnnotationCache 1 sampleCache)
  = Ok (Some 32, cacheAfterLookup (sampleEntity 11)
                   (clearAnnotationCache 1 sampleCache)).
Proof.
  destruct (clearAnnotationCache_correct 1%N 2%N sampleCache (sampleEntity 11)
              "reqntidx") as (H1 & H2 & _ & H4 & _ & H6 & _).
  - discriminate.
  - reflexivity.
  - vm_compute. reflexivity.
  - repeat split; assumption.
Defined.

(** ** Lookup *)

(** C3.  When the records of an entity mention a property, with values
    [v :: vs] in the order in which the records and their pairs are met,
    [findAllNVVMAnnotation] returns the whole sequence [v :: vs] and
    [findOneNVVMAnnotation] returns its first value [v]. *)
Theorem lookup_encounter_order (gv : GlobalValue) (prop : string)
    (AC : AnnotationCache) (v : Z) (vs : list Z)
    (Hwf : wellAnnotated gv = true)
    (Hcoh : coherentAt gv AC = true)
    (Hvalues : recordedValues gv prop = v :: vs) :
  findAllNVVMAnnotation gv prop AC
  = Ok (Some (v :: vs), cacheAfterLookup gv AC) ∧
  findOneNVVMAnnotation gv prop AC
  = Ok (Some v, cacheAfterLookup gv AC).
Proof.
  rewrite findAllNVVMAnnotation_spec, findOneNVVMAnnotation_spec
    by assumption.
  rewrite Hvalues. split; reflexivity.
Qed.

(** The example of the specification: a record ("maxntidx", 4) and a later
    record ("maxntidx", 8) of the same entity. *)
Lemma lookup_encounter_order_witness :
  findAllNVVMAnnotation (sampleEntity 10) "maxntidx" emptyCache
  = Ok (Some [4; 8], cacheAfterLookup (sampleEntity 10) emptyCache) ∧
  findOneNVVMAnnotation (sampleEntity 10) "maxntidx" emptyCache
  = Ok (Some 4, cacheAfterLookup (sampleEntity 10) emptyCache).
Proof.
  apply (lookup_encounter_order (sampleEntity 10) "maxntidx" emptyCache 4 [8]).
  - vm_compute. reflexivity.
  - vm_compute. reflexivity.
  - vm_compute. reflexivity.
Defined.

(** ** Kernel detection *)

(** C4.  Without a "kernel" annotation, [isKernelFunction] answers by the
    calling convention: true exactly when it is [PTX_Kernel]. *)
Theorem isKernelFunction_fallback (F : Function) (AC : AnnotationCache)
    (Hwf : wellAnnotated (fn_gv F) = true)
    (Hcoh : coherentAt (fn_gv F) AC = true)
    (Hnone : recordedValues (fn_gv F) "kernel" = []) :
  ∃ b, isKernelFunction F AC = Ok (b, cacheAfterLookup (fn_gv F) AC) ∧
       (b = true ↔ getCallingConv F = PTX_Kernel).
Proof.
  exists (getCallingConv F =? PTX_Kernel). split.
  - unfold isKernelFunction.
    rewrite findOneNVVMAnnotation_spec by assumption.
    rewrite Hnone. reflexivity.
  - apply Z.eqb_eq.
Qed.

Lemma isKernelFunction_fallback_witness :
  (∃ AC', isKernelFunction (sampleFunction 10 71) emptyCache = Ok (true, AC')) ∧
  (∃ AC', isKernelFunction (sampleFunction 10 0) emptyCache = Ok (false, AC')).
Proof.
  split.
  - destruct (isKernelFunction_fallback (sampleFunction 10 71) emptyCache)
      as (b & Hrun & Hb);
      [vm_compute; reflexivity| vm_compute; reflexivity
      | vm_compute; reflexivity|].
    eexists. rewrite Hrun. rewrite (proj2 Hb); reflexivity.
  - destruct (isKernelFunction_fallback (sampleFunction 10 0) emptyCache)
      as (b & Hrun & Hb);
      [vm_compute; reflexivity| vm_compute; reflexivity
      | vm_compute; reflexivity|].
    eexists. rewrite Hrun. destruct b; [|reflexivity].
    destruct Hb as [Hb _]. specialize (Hb eq_refl). discriminate.
Defined.

(** C10.  With a "kernel" annotation whose first value is [v],
    [isKernelFunction] returns [v == 1] whatever the calling convention
    is: the same function with the [PTX_Kernel] convention gets the same
    answer, so a value other than 1 gives false for it too. *)
Theorem isKernelFunction_annotated (F : Function) (AC : AnnotationCache)
    (v : Z) (vs : list Z)
    (Hwf : wellAnnotated (fn_gv F) = true)
    (Hcoh : coherentAt (fn_gv F) AC = true)
    (Hkernel : recordedValues (fn_gv F) "kernel" = v :: vs) :
  isKernelFunction F AC = Ok (v =? 1, cacheAfterLookup (fn_gv F) AC) ∧
  isKernelFunction
    {| fn_gv := fn_gv F; getCallingConv := PTX_Kernel;
       fn_getStackAlignment := fn_getStackAlignment F |} AC
  = Ok (v =? 1, cacheAfterLookup (fn_gv F) AC) ∧
  (v ≠ 1 →
   isKernelFunction
     {| fn_gv := fn_gv F; getCallingConv := PTX_Kernel;
        fn_getStackAlignment := fn_getStackAlignment F |} AC
   = Ok (false, cacheAfterLookup (fn_gv F) AC)).
Proof.
  assert (H : ∀ F', fn_gv F' = fn_gv F →
            isKernelFunction F' AC
            = Ok (v =? 1, cacheAfterLookup (fn_gv F) AC)).
  { intros F' HF. unfold isKernelFunction. rewrite HF.
    rewrite findOneNVVMAnnotation_spec by assumption.
    rewrite Hkernel. reflexivity. }
  split; [apply H; reflexivity|].
  split; [apply H; reflexivity|].
  intros Hv. rewrite H by reflexivity.
  destruct (Z.eqb_spec v 1); [contradiction|reflexivity].
Qed.

Lemma isKernelFunction_annotated_witness :
  isKernelFunction (sampleFunction 13 PTX_Kernel) emptyCache
  = Ok (false, cacheAfterLookup (sampleEntity 13) emptyCache).
Proof.
  destruct (isKernelFunction_annotated (sampleFunction 13 PTX_Kernel)
              emptyCache 0 []) as (H & _ & _).
  - vm_compute. reflexivity.
  - vm_compute. reflexivity.
  - vm_compute. reflexivity.
  - exact H.
Defined.

(** ** Alignment *)

Lemma mkAlign_Ok v :
  isPowerOf2 v = true → mkAlign v = Ok {| align_value := v |}.
Proof.
  intros H. unfold mkAlign. rewrite H.
  unfold isPowerOf2 in H. apply andb_true_iff in H as [-> _]. reflexivity.
Qed.

Lemma alignInList_found pre V post Index :
  Forall (λ W, Z.shiftr W 16 ≠ Index) pre →
  Z.shiftr V 16 = Index →
  isPowerOf2 (Z.land V 65535) = true →
  alignInList (pre ++ V :: post) Index
  = Ok (Some {| align_value := Z.land V 65535 |}).
Proof.
  intros Hpre HV Hpow.
  induction Hpre as [|W pre HW _ IH]; cbn [app alignInList].
  - rewrite (proj2 (Z.eqb_eq _ _) HV), mkAlign_Ok by assumption. reflexivity.
  - rewrite (proj2 (Z.eqb_neq _ _) HW). exact IH.
Qed.

Lemma alignInList_none Vs Index :
  Forall (λ W, Z.shiftr W 16 ≠ Index) Vs → alignInList Vs Index = Ok None.
Proof.
  induction 1 as [|W Vs HW _ IH]; cbn [alignInList]; [reflexivity|].
  rewrite (proj2 (Z.eqb_neq _ _) HW). exact IH.
Qed.

Lemma alignInCallalign_passedOver pre rest Index :
  Forall (λ op, passedOver Index op = true) pre →
  alignInCallalign (pre ++ rest) Index = alignInCallalign rest Index.
Proof.
  induction 1 as [|op pre Hop _ IH]; cbn [app alignInCallalign];
    [reflexivity|].
  destruct op as [[s|[c| |]|]|]; cbn in Hop |- *; try discriminate;
    try exact IH.
  apply Z.ltb_lt in Hop.
  destruct (Z.eqb_spec (Z.shiftr (to_unsigned (getZExtValue c)) 16) Index);
    [lia|].
  destruct (Z.gtb_spec (Z.shiftr (to_unsigned (getZExtValue c)) 16) Index);
    [lia|].
  exact IH.
Qed.

(** C5.  A stack alignment attribute on the function or on the call is
    returned as it is, whatever the legacy annotations say (they are not
    even read); with no attribute and no legacy annotation the answer is
    "none". *)
Theorem getAlign_prefers_attribute (F : Function) (I : CallInst) (Index : Z)
    (AC : AnnotationCache) :
  (∀ a, fn_getStackAlignment F Index = Some a →
        getAlign_Function F Index AC = Ok (Some a, AC)) ∧
  (∀ a, call_getStackAlignment I Index = Some a →
        getAlign_CallInst I Index = Ok (Some a)) ∧
  (fn_getStackAlignment F Index = None →
   wellAnnotated (fn_gv F) = true →
   coherentAt (fn_gv F) AC = true →
   recordedValues (fn_gv F) "align" = [] →
   getAlign_Function F Index AC
   = Ok (None, cacheAfterLookup (fn_gv F) AC)) ∧
  (call_getStackAlignment I Index = None →
   getMetadata I "callalign" = None →
   getAlign_CallInst I Index = Ok None).
Proof.
  unfold getAlign_Function, getAlign_CallInst.
  split; [intros a ->; reflexivity|].
  split; [intros a ->; reflexivity|].
  split.
  - intros -> Hwf Hcoh Hnone.
    rewrite findAllNVVMAnnotation_spec by assumption.
    rewrite Hnone. reflexivity.
  - intros -> ->. reflexivity.
Qed.

(** The example of the specification: attribute 16 and legacy
    (1 << 16 | 8) for parameter 1 resolve to 16. *)
Lemma getAlign_prefers_attribute_witness :
  getAlign_Function (alignedFunction attr16At1) 1 emptyCache
  = Ok (Some {| align_value := 16 |}, emptyCache) ∧
  getAlign_CallInst
    (alignedCall attr16At1 [("callalign", [mdInt 65544])]) 1
  = Ok (Some {| align_value := 16 |}) ∧
  getAlign_Function (sampleFunction 12 0) 1 emptyCache
  = Ok (None, cacheAfterLookup (sampleEntity 12) emptyCache) ∧
  getAlign_CallInst (alignedCall (λ _, None) []) 1 = Ok None.
Proof.
  pose proof (getAlign_prefers_attribute (alignedFunction attr16At1)
                (alignedCall attr16At1 [("callalign", [mdInt 65544])]) 1
                emptyCache) as (H1 & H2 & _ & _).
  pose proof (getAlign_prefers_attribute (sampleFunction 12 0)
                (alignedCall (λ _, None) []) 1 emptyCache)
    as (_ & _ & H3 & H4).
  split; [apply H1; reflexivity|].
  split; [apply H2; reflexivity|].
  split; [apply H3; vm_compute; reflexivity|].
  apply H4; reflexivity.
Defined.


(** C6.  A legacy value [V] stands for the parameter [V >> 16] and the
    alignment [V & 0xFFFF].  The function-level "align" list is searched
    to its end: the first value with the index asked for is taken even
    after values with larger indexes, and the answer is "none" only when
    no value of the whole list has that index.  The "callalign" scan of a
    call stops at the first integer constant whose index is not below the
    one asked for: with the same index it gives the alignment, with a
    larger one it gives "none" whatever follows. *)
Theorem legacy_alignment_scans (F : Function) (I : CallInst) (Index : Z)
    (AC : AnnotationCache) (pre post : list Z) (V : Z)
    (cpre cpost : list (option Metadata)) (c : Z)
    (HF : fn_getStackAlignment F Index = None)
    (Hwf : wellAnnotated (fn_gv F) = true)
    (Hcoh : coherentAt (fn_gv F) AC = true)
    (Halign : recordedValues (fn_gv F) "align" = pre ++ V :: post)
    (Hpre : Forall (λ W, Z.shiftr W 16 ≠ Index) pre)
    (HI : call_getStackAlignment I Index = None)
    (Hcall : getMetadata I "callalign" = Some (cpre ++ mdInt c :: cpost))
    (Hcpre : Forall (λ op, passedOver Index op = true) cpre) :
  let W := to_unsigned (getZExtValue c) in
  (Z.shiftr V 16 = Index → isPowerOf2 (Z.land V 65535) = true →
   getAlign_Function F Index AC
   = Ok (Some {| align_value := Z.land V 65535 |},
         cacheAfterLookup (fn_gv F) AC)) ∧
  (Z.shiftr V 16 ≠ Index → Forall (λ W, Z.shiftr W 16 ≠ Index) post →
   getAlign_Function F Index AC = Ok (None, cacheAfterLookup (fn_gv F) AC)) ∧
  (Z.shiftr W 16 = Index → isPowerOf2 (Z.land W 65535) = true →
   getAlign_CallInst I Index = Ok (Some {| align_value := Z.land W 65535 |})) ∧
  (Z.shiftr W 16 > Index → getAlign_CallInst I Index = Ok None).
Proof.
  intros W. unfold getAlign_Function, getAlign_CallInst.
  rewrite HF, HI, Hcall, findAllNVVMAnnotation_spec by assumption.
  rewrite Halign. cbn [result_bind].
  replace (match pre ++ V :: post with [] => None | z :: l => Some (z :: l) end)
    with (Some (pre ++ V :: post)) by (destruct pre; reflexivity).
  rewrite alignInCallalign_passedOver by assumption.
  cbn [alignInCallalign mdInt dyn_extract_ConstantInt result_bind]. fold W.
  split; [|split; [|split]].
  - intros HV Hpow. rewrite alignInList_found by assumption. reflexivity.
  - intros HV Hpost. rewrite alignInList_none; [reflexivity|].
    apply Forall_app. split; [assumption|]. constructor; assumption.
  - intros HW Hpow. rewrite (proj2 (Z.eqb_eq _ _) HW).
    rewrite mkAlign_Ok by assumption. reflexivity.
  - intros HW.
    destruct (Z.eqb_spec (Z.shiftr W 16) Index); [lia|].
    destruct (Z.gtb_spec (Z.shiftr W 16) Index); [reflexivity|lia].
Qed.

(** The same two values, (2 << 16 | 4) then (1 << 16 | 8), asked for
    parameter 1: the function-level list gives 8, the call gives "none". *)
Lemma legacy_alignment_scans_witness :
  getAlign_Function (alignedFunction (λ _, None)) 1 emptyCache
  = Ok (Some {| align_value := 8 |},
        cacheAfterLookup (sampleEntity 14) emptyCache) ∧
  getAlign_CallInst
    (alignedCall (λ _, None) [("callalign", [mdInt 131076; mdInt 65544])]) 1
  = Ok None.
Proof.
  destruct (legacy_alignment_scans (alignedFunction (λ _, None))
              (alignedCall (λ _, None)
                 [("callalign", [mdInt 131076; mdInt 65544])])
              1 emptyCache [131076] [] 65544 [] [mdInt 65544] 131076)
    as (H1 & _ & _ & H4).
  - reflexivity.
  - vm_compute. reflexivity.
  - vm_compute. reflexivity.
  - vm_compute. reflexivity.
  - constructor; [|constructor]. vm_compute. discriminate.
  - reflexivity.
  - reflexivity.
  - constructor.
  - split.
    + apply H1; vm_compute; reflexivity.
    + apply H4. vm_compute. reflexivity.
Defined.

(** ** Boolean predicates *)

Lemma flagOnGlobal_spec name msg val gv AC :
  dyn_cast_GlobalValue val = Some gv →
  wellAnnotated gv = true →
  coherentAt gv AC = true →
  flagOnGlobal name msg val AC
  = match recordedValues gv name with
    | [] => Ok (false, cacheAfterLookup gv AC)
    | v :: _ => if v =? 1 then Ok (true, cacheAfterLookup gv AC)
                else AssertionFailure msg
    end.
Proof.
  intros Hgv Hwf Hcoh. unfold flagOnGlobal. rewrite Hgv.
  rewrite findOneNVVMAnnotation_spec by assumption.
  destruct (recordedValues gv name) as [|v vs]; [reflexivity|].
  cbn. destruct (v =? 1); reflexivity.
Qed.

Lemma markedArgument_spec name arg AC :
  wellAnnotated (fn_gv (arg_getParent arg)) = true →
  coherentAt (fn_gv (arg_getParent arg)) AC = true →
  markedArgument name (ArgumentV arg) AC
  = Ok (is_contained (recordedValues (fn_gv (arg_getParent arg)) name)
          (getArgNo arg),
        cacheAfterLookup (fn_gv (arg_getParent arg)) AC).
Proof.
  intros Hwf Hcoh. unfold markedArgument. cbn [dyn_cast_Argument].
  rewrite findAllNVVMAnnotation_spec by assumption.
  destruct (recordedValues _ name); reflexivity.
Qed.

Lemma isSampler_global val gv AC :
  dyn_cast_GlobalValue val = Some gv →
  isSampler val AC
  = flagOnGlobal "sampler" "Unexpected annotation on a sampler symbol" val AC.
Proof.
  intros Hgv. unfold isSampler, flagOnGlobal. rewrite Hgv.
  destruct (findOneNVVMAnnotation gv "sampler" AC) as [[[annot|] AC']| |];
    try reflexivity.
  cbn [result_bind]. unfold markedArgument.
  destruct val; try discriminate; reflexivity.
Qed.

(** C7, as amended.  [isTexture], [isSurface], [isSampler] and
    [isManaged], on a global value: when the annotation is recorded, its
    first value must be 1 (anything else is a failed assertion) and the
    answer is true; when it is not recorded the answer is a plain false.
    The image predicates assert nothing: on an argument they answer
    whether the position of the argument is among the values recorded for
    its function. *)
Theorem boolean_predicates (val : Value) (gv : GlobalValue) (arg : Argument)
    (AC : AnnotationCache)
    (Hgv : dyn_cast_GlobalValue val = Some gv)
    (Hwf : wellAnnotated gv = true)
    (Hcoh : coherentAt gv AC = true)
    (Hwf' : wellAnnotated (fn_gv (arg_getParent arg)) = true)
    (Hcoh' : coherentAt (fn_gv (arg_getParent arg)) AC = true) :
  (∀ P name,
     In (P, name) [(isTexture, "texture"); (isSurface, "surface");
                   (isSampler, "sampler"); (isManaged, "managed")] →
     match recordedValues gv name with
     | [] => P val AC = Ok (false, cacheAfterLookup gv AC)
     | v :: _ =>
         (v = 1 → P val AC = Ok (true, cacheAfterLookup gv AC)) ∧
         (v ≠ 1 → isFatal (P val AC))
     end) ∧
  (∀ Q name,
     In (Q, name) [(isImageReadOnly, "rdoimage");
                   (isImageWriteOnly, "wroimage");
                   (isImageReadWrite, "rdwrimage")] →
     Q (ArgumentV arg) AC
     = Ok (is_contained (recordedValues (fn_gv (arg_getParent arg)) name)
             (getArgNo arg),
           cacheAfterLookup (fn_gv (arg_getParent arg)) AC)).
Proof.
  assert (Hflag : ∀ name msg,
    match recordedValues gv name with
    | [] => flagOnGlobal name msg val AC = Ok (false, cacheAfterLookup gv AC)
    | v :: _ =>
        (v = 1 → flagOnGlobal name msg val AC
                 = Ok (true, cacheAfterLookup gv AC)) ∧
        (v ≠ 1 → isFatal (flagOnGlobal name msg val AC))
    end).
  { intros name msg. rewrite (flagOnGlobal_spec name msg val gv) by assumption.
    destruct (recordedValues gv name) as [|v vs]; [reflexivity|].
    split.
    - intros ->. reflexivity.
    - intros Hv. destruct (Z.eqb_spec v 1); [contradiction|].
      eexists; reflexivity. }
  split.
  - intros P name [H|[H|[H|[H|[]]]]]; injection H as <- <-;
      try apply Hflag.
    rewrite (isSampler_global val gv) by assumption. apply Hflag.
  - intros Q name [H|[H|[H|[]]]]; injection H as <- <-;
      apply markedArgument_spec; assumption.
Qed.

Lemma boolean_predicates_witness :
  isTexture (GlobalVariableV (sampleEntity 16)) emptyCache
  = Ok (true, cacheAfterLookup (sampleEntity 16) emptyCache) ∧
  isFatal (isTexture (GlobalVariableV (sampleEntity 17)) emptyCache) ∧
  isManaged (GlobalVariableV (sampleEntity 16)) emptyCache
  = Ok (false, cacheAfterLookup (sampleEntity 16) emptyCache) ∧
  isImageReadOnly (ArgumentV (sampleArgument 15 2)) emptyCache
  = Ok (true, cacheAfterLookup (sampleEntity 15) emptyCache).
Proof.
  destruct (boolean_predicates (GlobalVariableV (sampleEntity 16))
              (sampleEntity 16) (sampleArgument 15 2) emptyCache)
    as [H16 Himg]; try (vm_compute; reflexivity).
  destruct (boolean_predicates (GlobalVariableV (sampleEntity 17))
              (sampleEntity 17) (sampleArgument 15 2) emptyCache)
    as [H17 _]; try (vm_compute; reflexivity).
  split; [|split; [|split]].
  - apply (H16 isTexture "texture"); [cbn; auto|reflexivity].
  - apply (H17 isTexture "texture"); [cbn; auto|discriminate].
  - apply (H16 isManaged "managed"). cbn; auto.
  - apply (Himg isImageReadOnly "rdoimage"). cbn; auto.
Defined.

(** C7, as stated, fails for the image predicates: entity 15 has
    [rdoimage] recorded with the values 0 and 2.  For its parameter 1 the
    annotation is found and the predicate is false; for its parameter 2
    the predicate is true, and no recorded value is 1. *)
Lemma image_predicate_asserts_nothing :
  (∃ AC', findAllNVVMAnnotation (sampleEntity 15) "rdoimage" emptyCache
          = Ok (Some [0; 2], AC')) ∧
  (∃ AC', isImageReadOnly (ArgumentV (sampleArgument 15 1)) emptyCache
          = Ok (false, AC')) ∧
  (∃ AC', isImageReadOnly (ArgumentV (sampleArgument 15 2)) emptyCache
          = Ok (true, AC')).
Proof.
  repeat split; eexists; vm_compute; reflexivity.
Qed.

(** ** The reader's assertions *)

Lemma recordValue_small (r : key_val_pair_t) k v :
  0 ≤ v < 2 ^ 32 →
  recordValue r k v = <[k := default [] (r !! k) ++ [v]]> r.
Proof.
  intros Hv. unfold recordValue, to_unsigned, getZExtValue.
  rewrite (Z.mod_small v (2 ^ 64)) by lia.
  rewrite (Z.mod_small v (2 ^ 32)) by lia.
  destruct (r !! k); reflexivity.
Qed.

Lemma recordPairs_small ps : ∀ (r : key_val_pair_t),
  Forall (λ p : string * Z, 0 ≤ p.2 < 2 ^ 32) ps →
  recordPairs r ps = appendPairValues r ps.
Proof.
  induction ps as [|p ps IH]; intros r Hps; [reflexivity|].
  inversion Hps as [|? ? Hp Hrest]; subst.
  unfold recordPairs, appendPairValues in *. cbn [foldl].
  rewrite recordValue_small by assumption. apply IH. assumption.
Qed.

Lemma isFatal_Ok {A} (a : A) : ¬ isFatal (Ok a).
Proof. intros [msg H]. discriminate. Qed.

(** C8, as amended.  The reader fails an assertion exactly when the
    record is malformed: an even number of elements, a name position that
    does not hold a textual identifier, or a value position that does not
    hold an integer constant.  On any other record it returns normally,
    having appended to the sequence of each pair's name, in the order of
    the pairs, the pair's integer value narrowed to 32 bits; that is the
    value itself for every value below 2^32. *)
Theorem reader_assertions (md : MDNode) (retval : gmap string (list Z)) :
  (isFatal (cacheAnnotationFromMD_MDNode (Some md) retval)
   ↔ malformedRecord md) ∧
  (¬ malformedRecord md →
   cacheAnnotationFromMD_MDNode (Some md) retval
   = Ok (recordPairs retval (pairsOfRecord md)) ∧
   (∀ prop,
      recordPairs retval (pairsOfRecord md) !! prop
      = match valuesOf prop (pairsOfRecord md) with
        | [] => retval !! prop
        | vs => Some (default [] (retval !! prop) ++ vs)
        end) ∧
   (Forall (λ p : string * Z, 0 ≤ p.2 < 2 ^ 32) (pairsOfRecord md) →
    recordPairs retval (pairsOfRecord md)
    = appendPairValues retval (pairsOfRecord md))).
Proof.
  destruct (wellFormedRecord md) eqn:Hwf.
  - assert (Hgood : ¬ malformedRecord md).
    { intros H. apply wellFormedRecord_false_iff in H. congruence. }
    pose proof (reader_Ok md retval Hwf) as Hrun.
    split.
    + split; [|contradiction].
      rewrite Hrun. intros H. destruct (isFatal_Ok _ H).
    + intros _. split; [exact Hrun|].
      split; [intros prop; apply recordPairs_lookup|].
      apply recordPairs_small.
  - assert (Hbad : malformedRecord md)
      by (apply wellFormedRecord_false_iff; exact Hwf).
    split; [|contradiction].
    split; [intros _; exact Hbad|].
    intros _. apply reader_fatal. exact Hwf.
Qed.

Lemma reader_assertions_witness :
  cacheAnnotationFromMD_MDNode
    (Some [mdGlobal 11; mdName "kernel"; mdInt 1; mdName "reqntidx"; mdInt 32])
    ∅
  = Ok {[ "kernel" := [1]; "reqntidx" := [32] ]} ∧
  isFatal (cacheAnnotationFromMD_MDNode
             (Some [mdGlobal 11; mdName "kernel"]) ∅).
Proof.
  split.
  - destruct (reader_assertions
                [mdGlobal 11; mdName "kernel"; mdInt 1;
                 mdName "reqntidx"; mdInt 32] ∅) as [Hiff Hok].
    destruct Hok as (Hrun & _ & _).
    + intros H. apply Hiff in H. destruct H as [msg H]. vm_compute in H.
      discriminate.
    + etransitivity; [exact Hrun|]. vm_compute. reflexivity.
  - destruct (reader_assertions [mdGlobal 11; mdName "kernel"] ∅)
      as [Hiff _].
    apply Hiff. left. reflexivity.
Defined.

(** C8, as stated, fails on a value that needs more than 32 bits: the
    record below is well formed, the specification's wording stores
    4294967301, the reader stores 5. *)
Lemma reader_narrows_values :
  ¬ malformedRecord [mdGlobal 14; mdName "align"; mdInt 4294967301] ∧
  appendPairValues ∅
    (pairsOfRecord [mdGlobal 14; mdName "align"; mdInt 4294967301])
  = {[ "align" := [4294967301] ]} ∧
  cacheAnnotationFromMD_MDNode
    (Some [mdGlobal 14; mdName "align"; mdInt 4294967301]) ∅
  = Ok {[ "align" := [5] ]} ∧
  cacheAnnotationFromMD_MDNode
    (Some [mdGlobal 14; mdName "align"; mdInt 4294967301]) ∅
  ≠ Ok (appendPairValues ∅
          (pairsOfRecord [mdGlobal 14; mdName "align"; mdInt 4294967301])).
Proof.
  split; [|split; [|split]].
  - intros H. apply wellFormedRecord_false_iff in H. vm_compute in H.
    discriminate.
  - vm_compute. reflexivity.
  - vm_compute. reflexivity.
  - vm_compute. discriminate.
Qed.

(** ** Records of other subjects *)

Lemma scanRecords_skip ops op0 post gv tmp :
  dyn_extract_or_null_GlobalValue op0 ≠ Some gv →
  scanRecords ((op0 :: ops) :: post) gv tmp = scanRecords post gv tmp.
Proof.
  intros Hsubj. cbn [scanRecords]. unfold getOperand.
  cbn [lookup list_lookup result_bind].
  destruct (dyn_extract_or_null_GlobalValue op0) as [entity|]; [|reflexivity].
  destruct (N.eqb_spec entity gv) as [->|_]; [congruence|reflexivity].
Qed.

Lemma scanRecords_app pre : ∀ rest rest' gv,
  (∀ tmp, scanRecords rest gv tmp = scanRecords rest' gv tmp) →
  ∀ tmp, scanRecords (pre ++ rest) gv tmp = scanRecords (pre ++ rest') gv tmp.
Proof.
  induction pre as [|elem pre IH]; intros rest rest' gv Hrest tmp;
    [apply Hrest|].
  cbn [app scanRecords].
  destruct (getOperand elem 0) as [op| |]; cbn [result_bind];
    try reflexivity.
  destruct (dyn_extract_or_null_GlobalValue op) as [entity|];
    [|apply IH; assumption].
  destruct (negb (entity =? gv)%N); [apply IH; assumption|].
  destruct (cacheAnnotationFromMD_MDNode (Some elem) tmp);
    cbn [result_bind]; try reflexivity.
  apply IH; assumption.
Qed.

(** C9.  A record whose subject resolves to null is passed over by the
    population for every entity, and a record of another entity is passed
    over by the population for this one: the scan goes on as if the
    record were not in the list, whatever its other elements are.  It is
    no error: when the rest of the list can be scanned the scan returns
    normally, with the pairs of the other records only. *)
Theorem dangling_records_skipped (pre post : NamedMDNode)
    (op0 : option Metadata) (ops : list (option Metadata))
    (gv : addr) (tmp : gmap string (list Z))
    (Hsubj : dyn_extract_or_null_GlobalValue op0 ≠ Some gv) :
  (dyn_extract_or_null_GlobalValue op0 = None →
   ∀ gv' tmp', scanRecords (pre ++ (op0 :: ops) :: post) gv' tmp'
               = scanRecords (pre ++ post) gv' tmp') ∧
  scanRecords (pre ++ (op0 :: ops) :: post) gv tmp
  = scanRecords (pre ++ post) gv tmp ∧
  entityPairs gv (pre ++ (op0 :: ops) :: post) = entityPairs gv (pre ++ post) ∧
  (scannable gv (pre ++ post) = true →
   scanRecords (pre ++ (op0 :: ops) :: post) gv tmp
   = Ok (recordPairs tmp (entityPairs gv (pre ++ post)))).
Proof.
  assert (Hskip : ∀ g, dyn_extract_or_null_GlobalValue op0 ≠ Some g →
            ∀ t, scanRecords (pre ++ (op0 :: ops) :: post) g t
                 = scanRecords (pre ++ post) g t).
  { intros g Hg t. apply scanRecords_app. intros t'.
    apply scanRecords_skip. assumption. }
  split; [|split; [|split]].
  - intros Hnull gv' tmp'. apply Hskip. congruence.
  - apply Hskip. assumption.
  - induction pre as [|elem pre IH]; cbn [app entityPairs].
    + rewrite decide_False by (cbn [subjectOf]; assumption). reflexivity.
    + rewrite IH.
      * reflexivity.
      * intros g Hg t. apply scanRecords_app. intros t'.
        apply scanRecords_skip. assumption.
  - intros Hs. rewrite Hskip by assumption. apply scanRecords_Ok. assumption.
Qed.

Lemma dangling_records_skipped_witness :
  scanRecords
    [[mdGlobal 10; mdName "maxntidx"; mdInt 4];
     [None; mdName "maxntidx"];
     [mdGlobal 10; mdName "maxntidx"; mdInt 8]] 10%N ∅
  = Ok {[ "maxntidx" := [4; 8] ]}.
Proof.
  destruct (dangling_records_skipped
              [[mdGlobal 10; mdName "maxntidx"; mdInt 4]]
              [[mdGlobal 10; mdName "maxntidx"; mdInt 8]]
              None [mdName "maxntidx"] 10%N ∅) as (_ & _ & _ & H).
  - discriminate.
  - etransitivity; [apply H|]; vm_compute; reflexivity.
Defined.

(** * Further properties of the code *)

(** ** What is stored is never empty and always an [unsigned] *)

Lemma to_unsigned_range v : 0 ≤ to_unsigned v < 2 ^ 32.
Proof. unfold to_unsigned. apply Z.mod_pos_bound. reflexivity. Qed.

Lemma mapInv_empty : mapInv ∅.
Proof. intros k vs H. rewrite lookup_empty in H. discriminate. Qed.

Lemma recordValue_inv (r : gmap string (list Z)) k v :
  mapInv r → mapInv (recordValue r k v).
Proof.
  intros Hr k' vs Hk'.
  destruct (decide (k = k')) as [<-|Hne].
  - rewrite recordValue_lookup_eq in Hk'. injection Hk' as <-.
    split; [destruct (default [] (r !! k)); discriminate|].
    apply Forall_app. split.
    + destruct (r !! k) as [ws|] eqn:E; cbn [default id];
        [apply (Hr k ws E)|constructor].
    + constructor; [apply to_unsigned_range|constructor].
  - rewrite recordValue_lookup_ne in Hk' by assumption. apply (Hr k' vs Hk').
Qed.

Lemma readPairs_inv ops : ∀ (r r' : gmap string (list Z)),
  mapInv r → readPairs ops r = Ok r' → mapInv r'.
Proof.
  induction ops as [| x | x y l IH] using pair_ind; intros r r' Hr Hrun.
  - injection Hrun as <-. exact Hr.
  - destruct x as [[]|]; discriminate.
  - cbn in Hrun.
    destruct x as [[k| |]|]; try discriminate.
    destruct y as [[|[v| |]|]|]; try discriminate.
    cbn in Hrun. eapply IH; [|exact Hrun]. apply recordValue_inv. exact Hr.
Qed.

Lemma readPairs_defined ops : ∀ (r : gmap string (list Z)),
  readPairs ops r ≠ UndefinedBehavior.
Proof.
  induction ops as [| x | x y l IH] using pair_ind; intros r.
  - discriminate.
  - destruct x as [[]|]; discriminate.
  - destruct x as [[k| |]|]; try discriminate.
    destruct y as [[|[v| |]|]|]; try discriminate.
    cbn. apply IH.
Qed.

Lemma reader_inv md (r r' : gmap string (list Z)) :
  mapInv r → cacheAnnotationFromMD_MDNode md r = Ok r' → mapInv r'.
Proof.
  intros Hr. unfold cacheAnnotationFromMD_MDNode.
  destruct md as [ops|]; [|discriminate].
  destruct (Z.of_nat (length ops) mod 2 =? 1); [|discriminate].
  cbn. apply readPairs_inv. exact Hr.
Qed.

Lemma reader_defined md (r : gmap string (list Z)) :
  cacheAnnotationFromMD_MDNode md r ≠ UndefinedBehavior.
Proof.
  unfold cacheAnnotationFromMD_MDNode.
  destruct md as [ops|]; [|discriminate].
  destruct (Z.of_nat (length ops) mod 2 =? 1); [|discriminate].
  cbn. apply readPairs_defined.
Qed.

Lemma scanRecords_inv NMD : ∀ gv (tmp tmp' : gmap string (list Z)),
  mapInv tmp → scanRecords NMD gv tmp = Ok tmp' → mapInv tmp'.
Proof.
  induction NMD as [|elem rest IH]; intros gv tmp tmp' Htmp Hrun.
  - injection Hrun as <-. exact Htmp.
  - cbn [scanRecords] in Hrun.
    destruct (getOperand elem 0) as [op| |]; try discriminate.
    cbn [result_bind] in Hrun.
    destruct (dyn_extract_or_null_GlobalValue op) as [entity|];
      [|eapply IH; eassumption].
    destruct (negb (entity =? gv)%N); [eapply IH; eassumption|].
    destruct (cacheAnnotationFromMD_MDNode (Some elem) tmp) as [t| |] eqn:E;
      try discriminate.
    cbn [result_bind] in Hrun.
    eapply IH; [|exact Hrun]. eapply reader_inv; eassumption.
Qed.

Lemma scanRecords_defined NMD : ∀ gv (tmp : gmap string (list Z)),
  scanRecords NMD gv tmp ≠ UndefinedBehavior.
Proof.
  induction NMD as [|elem rest IH]; intros gv tmp; [discriminate|].
  cbn [scanRecords]. unfold getOperand.
  destruct (elem !! 0%nat) as [op|]; [|discriminate].
  cbn [result_bind].
  destruct (dyn_extract_or_null_GlobalValue op) as [entity|]; [|apply IH].
  destruct (negb (entity =? gv)%N); [apply IH|].
  destruct (cacheAnnotationFromMD_MDNode (Some elem) tmp) as [t| |] eqn:E;
    cbn [result_bind]; [apply IH|discriminate|].
  destruct (reader_defined _ _ E).
Qed.

Lemma lookupEntry_insert m gv (kv : gmap string (list Z)) g C m' gv' :
  lookupEntry m' gv' {| Cache := <[m := <[gv := kv]> g]> C |}
  = if decide (m = m') then
      if decide (gv = gv') then Some kv else g !! gv'
    else lookupEntry m' gv' {| Cache := C |}.
Proof.
  unfold lookupEntry. cbn [Cache].
  destruct (decide (m = m')) as [<-|Hm].
  - rewrite lookup_insert_eq.
    destruct (decide (gv = gv')) as [<-|Hg].
    + apply lookup_insert_eq.
    + apply lookup_insert_ne. assumption.
  - rewrite lookup_insert_ne by assumption. reflexivity.
Qed.

Lemma cacheInv_insert m gv (kv : gmap string (list Z)) AC :
  cacheInv AC → mapInv kv →
  cacheInv {| Cache := <[m := <[gv := kv]> (default ∅ (Cache AC !! m))]>
                         (Cache AC) |}.
Proof.
  intros HAC Hkv m' gv' kv' H. rewrite lookupEntry_insert in H.
  destruct (decide (m = m')) as [<-|Hm].
  - destruct (decide (gv = gv')) as [<-|Hg].
    + injection H as <-. exact Hkv.
    + apply (HAC m gv' kv'). unfold lookupEntry.
      destruct (Cache AC !! m); cbn [default id] in H; [exact H|].
      rewrite lookup_empty in H. discriminate.
  - apply (HAC m' gv' kv'). destruct AC. exact H.
Qed.

Lemma cacheAnnotationFromMD_cases m gv AC :
  (∃ msg, cacheAnnotationFromMD m gv AC = AssertionFailure msg) ∨
  cacheAnnotationFromMD m gv AC = Ok AC ∨
  (∃ tmp, mapInv tmp ∧ tmp ≠ ∅ ∧
          cacheAnnotationFromMD m gv AC
          = Ok {| Cache := <[mod_addr m :=
                              <[gv_addr gv := tmp]>
                                (default ∅ (Cache AC !! mod_addr m))]>
                            (Cache AC) |}).
Proof.
  unfold cacheAnnotationFromMD.
  destruct (getNamedMetadata m "nvvm.annotations") as [NMD|]; [|auto].
  destruct (scanRecords NMD (gv_addr gv) ∅) as [tmp|msg|] eqn:E;
    cbn [result_bind].
  - destruct (bool_decide (tmp = ∅)) eqn:Eb; [auto|].
    right; right. exists tmp.
    split; [eapply scanRecords_inv; [apply mapInv_empty|exact E]|].
    split; [intros ->; rewrite bool_decide_eq_true_2 in Eb by reflexivity;
            discriminate|].
    destruct (Cache AC !! mod_addr m); cbn [default id]; [reflexivity|].
    rewrite insert_empty. reflexivity.
  - left. eexists; reflexivity.
  - destruct (scanRecords_defined _ _ _ E).
Qed.

Lemma populateIfMissing_inv gv AC :
  cacheInv AC →
  (∃ msg, populateIfMissing gv AC = AssertionFailure msg) ∨
  (∃ AC1, populateIfMissing gv AC = Ok AC1 ∧ cacheInv AC1).
Proof.
  intros Hinv. unfold populateIfMissing.
  destruct (notCached gv AC); [|right; eauto].
  destruct (cacheAnnotationFromMD_cases (getParent gv) gv AC)
    as [[msg H]|[H|(tmp & Htmp & _ & H)]]; rewrite H.
  - left. eauto.
  - right. eauto.
  - right. eexists. split; [reflexivity|].
    apply cacheInv_insert; assumption.
Qed.

Lemma Cache_subscript_inv m gv AC :
  cacheInv AC →
  mapInv (Cache_subscript m gv AC).1 ∧ cacheInv (Cache_subscript m gv AC).2.
Proof.
  intros Hinv. unfold Cache_subscript. cbn [fst snd].
  assert (Hkv : mapInv (default ∅ (default ∅ (Cache AC !! m) !! gv))).
  { destruct (Cache AC !! m) as [g|] eqn:Em; cbn [default id].
    - destruct (g !! gv) as [kv|] eqn:Eg; cbn [default id];
        [|apply mapInv_empty].
      apply (Hinv m gv kv). unfold lookupEntry. rewrite Em. exact Eg.
    - rewrite lookup_empty. apply mapInv_empty. }
  split; [exact Hkv|]. apply cacheInv_insert; assumption.
Qed.

Lemma cacheInv_emptyCache : cacheInv emptyCache.
Proof. intros m gv kv H. vm_compute in H. discriminate. Qed.

Lemma cacheInv_clear Mod AC :
  cacheInv AC → cacheInv (clearAnnotationCache Mod AC).
Proof.
  intros Hinv m gv kv H. apply (Hinv m gv kv).
  unfold lookupEntry, clearAnnotationCache in *. cbn [Cache] in H.
  destruct (decide (Mod = m)) as [->|Hne].
  - rewrite lookup_delete_eq in H. discriminate.
  - rewrite lookup_delete_ne in H by assumption. exact H.
Qed.

(** The shape of a lookup from a cache that satisfies the invariant. *)
Lemma lookup_shape gv prop AC :
  cacheInv AC →
  (∃ msg, findOneNVVMAnnotation gv prop AC = AssertionFailure msg ∧
          findAllNVVMAnnotation gv prop AC = AssertionFailure msg) ∨
  (∃ kv AC2, mapInv kv ∧ cacheInv AC2 ∧
             findAllNVVMAnnotation gv prop AC = Ok (kv !! prop, AC2) ∧
             findOneNVVMAnnotation gv prop AC = Ok (kv !! prop ≫= head, AC2)).
Proof.
  intros Hinv. unfold findOneNVVMAnnotation, findAllNVVMAnnotation.
  destruct (populateIfMissing_inv gv AC Hinv) as [[msg H]|(AC1 & H & Hinv1)];
    rewrite H; cbn [result_bind].
  - left. eauto.
  - right.
    destruct (Cache_subscript_inv (mod_addr (getParent gv)) (gv_addr gv) AC1
                Hinv1) as [Hkv Hinv2].
    destruct (Cache_subscript (mod_addr (getParent gv)) (gv_addr gv) AC1)
      as [kv AC2]. cbn [fst snd] in *.
    exists kv, AC2. split; [exact Hkv|]. split; [exact Hinv2|].
    destruct (kv !! prop) as [vs|] eqn:E; [|split; reflexivity].
    split; [reflexivity|].
    destruct vs as [|v vs]; [|reflexivity].
    destruct (Hkv prop [] E) as [Hne _]. congruence.
Qed.

(** X1.  From a cache in which every stored sequence is non-empty and
    holds 32-bit values, invalidation and every lookup that returns lead
    to such a cache again, and what a lookup returns is such a value or
    such a sequence.  The empty cache is one. *)
Theorem cache_invariant_preserved (gv : GlobalValue) (prop : string)
    (Mod : addr) (AC : AnnotationCache) (Hinv : cacheInv AC) :
  cacheInv (clearAnnotationCache Mod AC) ∧
  (∀ r AC', findOneNVVMAnnotation gv prop AC = Ok (r, AC') →
            cacheInv AC' ∧ ∀ v, r = Some v → 0 ≤ v < 2 ^ 32) ∧
  (∀ r AC', findAllNVVMAnnotation gv prop AC = Ok (r, AC') →
            cacheInv AC' ∧
            ∀ vs, r = Some vs → vs ≠ [] ∧ Forall (λ v, 0 ≤ v < 2 ^ 32) vs).
Proof.
  split; [apply cacheInv_clear; exact Hinv|].
  destruct (lookup_shape gv prop AC Hinv)
    as [(msg & H1 & HA)|(kv & AC2 & Hkv & Hinv2 & HA & H1)];
    rewrite H1, HA.
  - split; intros r AC' H; discriminate.
  - split; intros r AC' H; injection H as <- <-; (split; [exact Hinv2|]).
    + intros v Hv. destruct (kv !! prop) as [vs|] eqn:E; [|discriminate].
      destruct (Hkv prop vs E) as [_ Hall].
      destruct vs as [|w vs]; [discriminate|]. injection Hv as <-.
      inversion Hall; assumption.
    + intros vs Hvs. apply (Hkv prop vs Hvs).
Qed.

Lemma cache_invariant_preserved_witness :
  cacheInv (clearAnnotationCache 1 emptyCache) ∧
  cacheInv (cacheAfterLookup (sampleEntity 10) emptyCache).
Proof.
  destruct (cache_invariant_preserved (sampleEntity 10) "maxntidx" 1%N
              emptyCache cacheInv_emptyCache) as (H1 & H2 & _).
  split; [exact H1|].
  apply (H2 (Some 4) (cacheAfterLookup (sampleEntity 10) emptyCache)).
  vm_compute. reflexivity.
Defined.

(** X2.  From such a cache a lookup never indexes an empty vector: the
    two lookups either fail the same assertion of the scan, or both
    return, leaving the same cache, and [findOneNVVMAnnotation] gives the
    first element of what [findAllNVVMAnnotation] gives. *)
Theorem lookups_agree (gv : GlobalValue) (prop : string)
    (AC : AnnotationCache) (Hinv : cacheInv AC) :
  findOneNVVMAnnotation gv prop AC ≠ UndefinedBehavior ∧
  findAllNVVMAnnotation gv prop AC ≠ UndefinedBehavior ∧
  (∀ msg, findAllNVVMAnnotation gv prop AC = AssertionFailure msg ↔
          findOneNVVMAnnotation gv prop AC = AssertionFailure msg) ∧
  (∀ r AC', findAllNVVMAnnotation gv prop AC = Ok (r, AC') →
            findOneNVVMAnnotation gv prop AC = Ok (r ≫= head, AC') ∧
            (is_Some r ↔ is_Some (r ≫= head))).
Proof.
  destruct (lookup_shape gv prop AC Hinv)
    as [(msg & H1 & HA)|(kv & AC2 & Hkv & Hinv2 & HA & H1)];
    rewrite H1, HA.
  - split; [discriminate|]. split; [discriminate|].
    split; [intros msg'; split; intros H; injection H as <-; reflexivity|].
    intros r AC' H. discriminate.
  - split; [discriminate|]. split; [discriminate|].
    split; [intros msg; split; discriminate|].
    intros r AC' H. injection H as <- <-. split; [reflexivity|].
    destruct (kv !! prop) as [vs|] eqn:E.
    + destruct (Hkv prop vs E) as [Hne _].
      destruct vs as [|v vs]; [congruence|]. cbn. split; eauto.
    + cbn. split; intros [x Hx]; discriminate.
Qed.

Lemma lookups_agree_witness :
  findOneNVVMAnnotation (sampleEntity 10) "maxntidx" emptyCache
  = Ok (Some 4, cacheAfterLookup (sampleEntity 10) emptyCache).
Proof.
  destruct (lookups_agree (sampleEntity 10) "maxntidx" emptyCache
              cacheInv_emptyCache) as (_ & _ & _ & H).
  apply (H (Some [4; 8]) (cacheAfterLookup (sampleEntity 10) emptyCache)).
  vm_compute. reflexivity.
Defined.

(** ** A lookup and the rest of the cache *)

Lemma lookupEntry_insert_other m gv (kv : gmap string (list Z)) AC m' gv' :
  (m', gv') ≠ (m, gv) →
  lookupEntry m' gv'
    {| Cache := <[m := <[gv := kv]> (default ∅ (Cache AC !! m))]> (Cache AC) |}
  = lookupEntry m' gv' AC.
Proof.
  intros Hne. rewrite lookupEntry_insert.
  destruct (decide (m = m')) as [<-|Hm]; [|destruct AC; reflexivity].
  destruct (decide (gv = gv')) as [<-|Hg]; [congruence|].
  unfold lookupEntry. destruct (Cache AC !! m); cbn [default id];
    [reflexivity|apply lookup_empty].
Qed.

Lemma populateIfMissing_cases gv AC :
  (∃ msg, populateIfMissing gv AC = AssertionFailure msg) ∨
  populateIfMissing gv AC = Ok AC ∨
  (notCached gv AC = true ∧
   ∃ tmp, populateIfMissing gv AC
          = Ok {| Cache := <[mod_addr (getParent gv) :=
                              <[gv_addr gv := tmp]>
                                (default ∅ (Cache AC !! mod_addr (getParent gv)))]>
                            (Cache AC) |}).
Proof.
  unfold populateIfMissing. destruct (notCached gv AC); [|auto].
  destruct (cacheAnnotationFromMD_cases (getParent gv) gv AC)
    as [H|[H|(tmp & _ & _ & H)]]; [auto|auto|].
  right; right. split; [reflexivity|]. eauto.
Qed.

Lemma findOne_Ok_inv gv prop AC r AC' :
  findOneNVVMAnnotation gv prop AC = Ok (r, AC') →
  ∃ AC1, populateIfMissing gv AC = Ok AC1 ∧
         AC' = (Cache_subscript (mod_addr (getParent gv)) (gv_addr gv) AC1).2 ∧
         r = (Cache_subscript (mod_addr (getParent gv)) (gv_addr gv) AC1).1
               !! prop ≫= head ∧
         (Cache_subscript (mod_addr (getParent gv)) (gv_addr gv) AC1).1
           !! prop ≠ Some [].
Proof.
  unfold findOneNVVMAnnotation. intros H.
  destruct (populateIfMissing gv AC) as [AC1| |]; try discriminate.
  cbn [result_bind] in H. exists AC1. split; [reflexivity|].
  destruct (Cache_subscript (mod_addr (getParent gv)) (gv_addr gv) AC1)
    as [kv AC2]. cbn [fst snd].
  destruct (kv !! prop) as [[|v vs]|]; try discriminate;
    injection H as <- <-; repeat split; discriminate.
Qed.



(** X4.  A lookup that returns touches the entry of its own entity only:
    the entry of every other entity, of the same module or of another,
    is what it was; and when the entity was cached the whole cache is
    what it was. *)
Theorem lookup_frame (gv : GlobalValue) (prop : string)
    (AC AC' : AnnotationCache) (r : option Z) (m' gv' : addr)
    (Hrun : findOneNVVMAnnotation gv prop AC = Ok (r, AC')) :
  ((m', gv') ≠ (mod_addr (getParent gv), gv_addr gv) →
   lookupEntry m' gv' AC' = lookupEntry m' gv' AC) ∧
  (notCached gv AC = false → AC' = AC).
Proof.
  destruct (findOne_Ok_inv gv prop AC r AC' Hrun)
    as (AC1 & Hpop & -> & _ & _).
  set (m := mod_addr (getParent gv)) in *. set (a := gv_addr gv) in *.
  split.
  - intros Hne. unfold Cache_subscript. cbn [snd].
    rewrite lookupEntry_insert_other by assumption.
    destruct (populateIfMissing_cases gv AC) as [[msg H]|[H|(_ & tmp & H)]];
      rewrite H in Hpop; try discriminate; injection Hpop as <-;
      [reflexivity|].
    fold m a. apply lookupEntry_insert_other. assumption.
  - intros Hc. unfold populateIfMissing in Hpop. rewrite Hc in Hpop.
    injection Hpop as <-.
    rewrite notCached_lookupEntry in Hc. fold m a in Hc.
    destruct (lookupEntry m a AC) as [kv|] eqn:E; [|discriminate].
    rewrite (Cache_subscript_present m a AC kv E). reflexivity.
Qed.

Lemma lookup_frame_witness :
  ∃ AC',
    findOneNVVMAnnotation (sampleEntity 10) "maxntidx" sampleCache
    = Ok (Some 4, AC') ∧
    lookupEntry 1%N 11%N AC' = lookupEntry 1%N 11%N sampleCache ∧
    lookupEntry 2%N 20%N AC' = lookupEntry 2%N 20%N sampleCache.
Proof.
  exists (cacheAfterLookup (sampleEntity 10) sampleCache).
  assert (H : findOneNVVMAnnotation (sampleEntity 10) "maxntidx" sampleCache
              = Ok (Some 4, cacheAfterLookup (sampleEntity 10) sampleCache))
    by (vm_compute; reflexivity).
  split; [exact H|]. split.
  - apply (lookup_frame _ _ _ _ _ 1%N 11%N H). discriminate.
  - apply (lookup_frame _ _ _ _ _ 2%N 20%N H). discriminate.
Defined.

(** ** Coherence is kept *)

Lemma coherentAt_after gv gv' AC :
  (mod_addr (getParent gv') = mod_addr (getParent gv) →
   gv_addr gv' = gv_addr gv → propertyMapOf gv' = propertyMapOf gv) →
  coherentAt gv' AC = true →
  coherentAt gv' (cacheAfterLookup gv AC) = true.
Proof.
  intros Hsame Hcoh. unfold coherentAt, cacheAfterLookup in *.
  rewrite lookupEntry_insert.
  destruct (decide (mod_addr (getParent gv) = mod_addr (getParent gv')))
    as [Hm|Hm].
  - destruct (decide (gv_addr gv = gv_addr gv')) as [Hg|Hg].
    + apply bool_decide_eq_true. symmetry. apply Hsame; congruence.
    + unfold lookupEntry in Hcoh. rewrite <- Hm in Hcoh.
      destruct (Cache AC !! mod_addr (getParent gv)); cbn [default id];
        [exact Hcoh|].
      rewrite lookup_empty. reflexivity.
  - destruct AC. exact Hcoh.
Qed.

(** X5.  Coherence of the cache with the modules is an invariant.  When
    the entry of [gv'] (if any) is what its module says, it still is
    after a lookup for a well-annotated [gv] and after the invalidation of
    any module; two entities with the same addresses are taken to be the
    same entity. *)
Theorem coherence_preserved (gv gv' : GlobalValue) (prop : string)
    (Mod : addr) (AC : AnnotationCache)
    (Hwf : wellAnnotated gv = true)
    (Hcoh : coherentAt gv AC = true)
    (Hsame : mod_addr (getParent gv') = mod_addr (getParent gv) →
             gv_addr gv' = gv_addr gv →
             propertyMapOf gv' = propertyMapOf gv)
    (Hcoh' : coherentAt gv' AC = true) :
  (∃ r AC', findOneNVVMAnnotation gv prop AC = Ok (r, AC') ∧
            coherentAt gv' AC' = true ∧ coherentAt gv AC' = true) ∧
  (∃ r AC', findAllNVVMAnnotation gv prop AC = Ok (r, AC') ∧
            coherentAt gv' AC' = true ∧ coherentAt gv AC' = true) ∧
  coherentAt gv' (clearAnnotationCache Mod AC) = true.
Proof.
  assert (H1 : coherentAt gv' (cacheAfterLookup gv AC) = true)
    by (apply coherentAt_after; assumption).
  assert (H2 : coherentAt gv (cacheAfterLookup gv AC) = true)
    by (apply coherentAt_after; auto).
  split; [|split].
  - rewrite findOneNVVMAnnotation_spec by assumption. eauto.
  - rewrite findAllNVVMAnnotation_spec by assumption. eauto.
  - unfold coherentAt, lookupEntry, clearAnnotationCache in *. cbn [Cache].
    destruct (decide (Mod = mod_addr (getParent gv'))) as [->|Hne].
    + rewrite lookup_delete_eq. reflexivity.
    + rewrite lookup_delete_ne by assumption. exact Hcoh'.
Qed.

Lemma coherence_preserved_witness :
  ∃ r AC',
    findOneNVVMAnnotation (sampleEntity 10) "maxntidx" emptyCache = Ok (r, AC') ∧
    coherentAt (sampleEntity 11) AC' = true ∧
    coherentAt (sampleEntity 10) AC' = true.
Proof.
  destruct (coherence_preserved (sampleEntity 10) (sampleEntity 11)
              "maxntidx" 1%N emptyCache) as (H & _ & _).
  - vm_compute. reflexivity.
  - vm_compute. reflexivity.
  - intros _ Hg. vm_compute in Hg. discriminate.
  - vm_compute. reflexivity.
  - exact H.
Defined.

(** ** When a lookup fails *)

Lemma isFatal_bind {A B} (r : result A) (k : A → result B) :
  isFatal r → isFatal (result_bind r k).
Proof. intros [msg ->]. eexists; reflexivity. Qed.

Lemma scanRecords_fatal NMD : ∀ gv (tmp : gmap string (list Z)),
  scannable gv NMD = false → isFatal (scanRecords NMD gv tmp).
Proof.
  induction NMD as [|elem rest IH]; intros gv tmp Hs; [discriminate|].
  destruct elem as [|op0 ops]; [eexists; reflexivity|].
  cbn [scannable] in Hs. cbn [scanRecords]. unfold getOperand.
  cbn [lookup list_lookup result_bind]. cbn [subjectOf] in Hs.
  destruct (dyn_extract_or_null_GlobalValue op0) as [entity|].
  - destruct (decide (Some entity = Some gv)) as [Heq|Hne].
    + injection Heq as ->. rewrite N.eqb_refl. cbn [negb].
      destruct (wellFormedRecord (op0 :: ops)) eqn:Hwf.
      * rewrite reader_Ok by assumption. cbn [result_bind].
        apply IH. exact Hs.
      * apply isFatal_bind. apply reader_fatal. exact Hwf.
    + destruct (N.eqb_spec entity gv) as [->|_]; [congruence|].
      cbn [negb]. apply IH. exact Hs.
  - rewrite decide_False in Hs by discriminate. apply IH. exact Hs.
Qed.

(** X6.  A lookup fails an assertion exactly when it has to scan (the
    entity is not cached) and the annotation list has a record without
    operands or a malformed record of this very entity.  Malformed
    records of other entities and of dangling subjects never make it
    fail, and a lookup for a cached entity never fails. *)
Theorem lookup_fails_iff (gv : GlobalValue) (prop : string)
    (AC : AnnotationCache) :
  isFatal (findOneNVVMAnnotation gv prop AC)
  ↔ notCached gv AC = true ∧ wellAnnotated gv = false.
Proof.
  assert (Hnot : ∀ AC1,
    ¬ isFatal (let '(kv, AC2) :=
                 Cache_subscript (mod_addr (getParent gv)) (gv_addr gv) AC1 in
               match kv !! prop with
               | None => Ok (None, AC2)
               | Some [] => UndefinedBehavior
               | Some (v :: _) => Ok (Some v, AC2)
               end)).
  { intros AC1 [msg H].
    destruct (Cache_subscript _ _ AC1) as [kv AC2].
    destruct (kv !! prop) as [[|v vs]|]; discriminate. }
  unfold findOneNVVMAnnotation, populateIfMissing.
  destruct (notCached gv AC); cbn [result_bind].
  - unfold cacheAnnotationFromMD, wellAnnotated.
    destruct (getNamedMetadata (getParent gv) "nvvm.annotations") as [NMD|].
    + destruct (scannable (gv_addr gv) NMD) eqn:Hs.
      * rewrite (scanRecords_Ok NMD _ _ Hs). cbn [result_bind].
        split; [|intros [_ H]; discriminate].
        intros H. exfalso.
        destruct (bool_decide _); [exact (Hnot _ H)|].
        destruct (Cache AC !! mod_addr (getParent gv));
          cbn [result_bind] in H; exact (Hnot _ H).
      * split; [auto|]. intros _.
        do 2 apply isFatal_bind. apply scanRecords_fatal. exact Hs.
    + cbn [result_bind]. split; [|intros [_ H]; discriminate].
      intros H. destruct (Hnot _ H).
  - split; [|intros [H _]; discriminate].
    intros H. destruct (Hnot _ H).
Qed.

(** ** The reader only appends *)

Lemma recordValue_extends (r : gmap string (list Z)) k v k' vs :
  r !! k' = Some vs → ∃ ws, recordValue r k v !! k' = Some (vs ++ ws).
Proof.
  intros H. destruct (decide (k = k')) as [<-|Hne].
  - rewrite recordValue_lookup_eq, H. cbn [default id]. eauto.
  - rewrite recordValue_lookup_ne by assumption. exists [].
    rewrite app_nil_r. exact H.
Qed.

Lemma readPairs_extends ops : ∀ (r r' : gmap string (list Z)) k vs,
  readPairs ops r = Ok r' → r !! k = Some vs →
  ∃ ws, r' !! k = Some (vs ++ ws).
Proof.
  induction ops as [| x | x y l IH] using pair_ind; intros r r' k vs Hrun Hk.
  - injection Hrun as <-. exists []. rewrite app_nil_r. exact Hk.
  - destruct x as [[]|]; discriminate.
  - cbn in Hrun.
    destruct x as [[key| |]|]; try discriminate.
    destruct y as [[|[v| |]|]|]; try discriminate.
    cbn in Hrun.
    destruct (recordValue_extends r key v k vs Hk) as [ws1 H1].
    destruct (IH _ _ _ _ Hrun H1) as [ws2 H2].
    exists (ws1 ++ ws2). rewrite app_assoc. exact H2.
Qed.

Lemma reader_extends md (r r' : gmap string (list Z)) k vs :
  cacheAnnotationFromMD_MDNode md r = Ok r' → r !! k = Some vs →
  ∃ ws, r' !! k = Some (vs ++ ws).
Proof.
  unfold cacheAnnotationFromMD_MDNode.
  destruct md as [ops|]; [|discriminate].
  destruct (Z.of_nat (length ops) mod 2 =? 1); [|discriminate].
  cbn. apply readPairs_extends.
Qed.

(** X7.  The reader and the scan only append: whatever the record or the
    list holds, when they return every sequence that was in the map is
    still there, as a prefix of the sequence now stored under its name.
    Nothing is removed, replaced or reordered. *)
Theorem scan_only_appends (NMD : NamedMDNode) (md : option MDNode)
    (gv : addr) (tmp tmp' tmp'' : gmap string (list Z))
    (k : string) (vs : list Z)
    (Hk : tmp !! k = Some vs)
    (Hread : cacheAnnotationFromMD_MDNode md tmp = Ok tmp')
    (Hscan : scanRecords NMD gv tmp = Ok tmp'') :
  (∃ ws, tmp' !! k = Some (vs ++ ws)) ∧
  (∃ ws, tmp'' !! k = Some (vs ++ ws)).
Proof.
  split; [eapply reader_extends; eassumption|].
  clear Hread. revert tmp vs Hk Hscan.
  induction NMD as [|elem rest IH]; intros tmp vs Hk Hscan.
  - injection Hscan as <-. exists []. rewrite app_nil_r. exact Hk.
  - cbn [scanRecords] in Hscan.
    destruct (getOperand elem 0) as [op| |]; try discriminate.
    cbn [result_bind] in Hscan.
    destruct (dyn_extract_or_null_GlobalValue op) as [entity|];
      [|eapply IH; eassumption].
    destruct (negb (entity =? gv)%N); [eapply IH; eassumption|].
    destruct (cacheAnnotationFromMD_MDNode (Some elem) tmp) as [t| |] eqn:E;
      try discriminate.
    cbn [result_bind] in Hscan.
    destruct (reader_extends _ _ _ _ _ E Hk) as [ws1 H1].
    destruct (IH _ _ H1 Hscan) as [ws2 H2].
    exists (ws1 ++ ws2). rewrite app_assoc. exact H2.
Qed.

Lemma scan_only_appends_witness :
  ∃ ws,
    ({[ "maxntidx" := [4; 8]; "reqntidx" := [32] ]} : gmap string (list Z))
      !! "maxntidx"
    = Some ([4] ++ ws).
Proof.
  destruct (scan_only_appends
              [[mdGlobal 10; mdName "reqntidx"; mdInt 32]]
              (Some [mdGlobal 10; mdName "maxntidx"; mdInt 8]) 10%N
              {[ "maxntidx" := [4] ]}
              {[ "maxntidx" := [4; 8] ]}
              {[ "maxntidx" := [4]; "reqntidx" := [32] ]}
              "maxntidx" [4]) as [[ws H] _].
  - vm_compute. reflexivity.
  - vm_compute. reflexivity.
  - vm_compute. reflexivity.
  - exists [8]. vm_compute. reflexivity.
Defined.

(** ** Alignments from the legacy annotations *)

Lemma pow2_below_65536 v :
  isPowerOf2 v = true → v < 65536 → 1 ≤ v ≤ 32768.
Proof.
  unfold isPowerOf2. intros [Hpos Hland]%andb_true_iff Hlt.
  apply Z.ltb_lt in Hpos. apply Z.eqb_eq in Hland.
  split; [lia|].
  destruct (Z_le_gt_dec v 32768) as [Hle|Hgt]; [exact Hle|exfalso].
  assert (Hbit : ∀ a, 32768 ≤ a < 65536 → Z.testbit a 15 = true).
  { intros a Ha. apply Z.testbit_true; [lia|].
    change (2 ^ 15) with 32768.
    replace (a / 32768) with 1; [reflexivity|].
    apply Z.div_unique with (r := a - 32768); lia. }
  assert (H : Z.testbit (Z.land v (v - 1)) 15 = true).
  { rewrite Z.land_spec, !Hbit by lia. reflexivity. }
  rewrite Hland in H. rewrite Z.bits_0 in H. discriminate.
Qed.

Lemma mkAlign_inv v a :
  mkAlign v = Ok a → a = {| align_value := v |} ∧ isPowerOf2 v = true.
Proof.
  unfold mkAlign. destruct (0 <? v); [|discriminate].
  destruct (isPowerOf2 v); [|discriminate].
  cbn. intros H. injection H as <-. auto.
Qed.

Lemma land_65535_lt V : Z.land V 65535 < 65536.
Proof.
  change 65535 with (Z.ones 16). rewrite Z.land_ones by lia.
  change 65536 with (2 ^ 16). apply Z.mod_pos_bound. reflexivity.
Qed.

Lemma alignInList_inv Vs Index a :
  alignInList Vs Index = Ok (Some a) →
  ∃ V, V ∈ Vs ∧ Z.shiftr V 16 = Index ∧
       a = {| align_value := Z.land V 65535 |} ∧
       isPowerOf2 (Z.land V 65535) = true.
Proof.
  induction Vs as [|V Vs IH]; [discriminate|]. cbn [alignInList].
  destruct (Z.eqb_spec (Z.shiftr V 16) Index) as [Heq|Hne].
  - destruct (mkAlign (Z.land V 65535)) as [b| |] eqn:E; try discriminate.
    cbn. intros H. injection H as <-.
    destruct (mkAlign_inv _ _ E) as [-> Hp].
    exists V. repeat split; [left|assumption|assumption].
  - intros H. destruct (IH H) as (W & HW & Hrest).
    exists W. split; [right; exact HW|exact Hrest].
Qed.

Lemma alignInCallalign_inv ops Index a :
  alignInCallalign ops Index = Ok (Some a) →
  ∃ c, mdInt c ∈ ops ∧
       Z.shiftr (to_unsigned (getZExtValue c)) 16 = Index ∧
       a = {| align_value := Z.land (to_unsigned (getZExtValue c)) 65535 |} ∧
       isPowerOf2 (Z.land (to_unsigned (getZExtValue c)) 65535) = true.
Proof.
  induction ops as [|op ops IH]; [discriminate|]. cbn [alignInCallalign].
  assert (Hrest : alignInCallalign ops Index = Ok (Some a) →
    ∃ c, mdInt c ∈ op :: ops ∧
         Z.shiftr (to_unsigned (getZExtValue c)) 16 = Index ∧
         a = {| align_value := Z.land (to_unsigned (getZExtValue c)) 65535 |} ∧
         isPowerOf2 (Z.land (to_unsigned (getZExtValue c)) 65535) = true).
  { intros H. destruct (IH H) as (c & Hc & Hr). exists c.
    split; [right; exact Hc|exact Hr]. }
  destruct op as [[s|[c| |]|]|]; cbn [dyn_extract_ConstantInt result_bind];
    try exact Hrest; try discriminate.
  destruct (Z.eqb_spec (Z.shiftr (to_unsigned (getZExtValue c)) 16) Index)
    as [Heq|Hne].
  - destruct (mkAlign (Z.land (to_unsigned (getZExtValue c)) 65535))
      as [b| |] eqn:E; try discriminate.
    cbn. intros H. injection H as <-.
    destruct (mkAlign_inv _ _ E) as [-> Hp].
    exists c. repeat split; [left|assumption|assumption].
  - destruct (Z.shiftr (to_unsigned (getZExtValue c)) 16 >? Index);
      [discriminate|exact Hrest].
Qed.

(** X8.  Without a stack alignment attribute, an alignment that
    [getAlign] returns comes from a legacy value whose index is the one
    asked for, and it is a power of two between 1 and 32768: the low 16
    bits cannot hold more. *)
Theorem legacy_alignment_bounded (F : Function) (I : CallInst) (Index : Z)
    (AC AC' : AnnotationCache) (a b : Align)
    (HF : fn_getStackAlignment F Index = None)
    (HI : call_getStackAlignment I Index = None)
    (Hfn : getAlign_Function F Index AC = Ok (Some a, AC'))
    (Hcall : getAlign_CallInst I Index = Ok (Some b)) :
  isPowerOf2 (align_value a) = true ∧ 1 ≤ align_value a ≤ 32768 ∧
  isPowerOf2 (align_value b) = true ∧ 1 ≤ align_value b ≤ 32768 ∧
  ∃ n c, getMetadata I "callalign" = Some n ∧ mdInt c ∈ n ∧
         Z.shiftr (to_unsigned (getZExtValue c)) 16 = Index ∧
         align_value b = Z.land (to_unsigned (getZExtValue c)) 65535.
Proof.
  unfold getAlign_Function in Hfn. rewrite HF in Hfn.
  destruct (findAllNVVMAnnotation (fn_gv F) "align" AC)
    as [[[Vs|] AC1]| |]; try discriminate.
  cbn [result_bind] in Hfn.
  destruct (alignInList Vs Index) as [[x|]| |] eqn:E; try discriminate.
  cbn [result_bind] in Hfn. injection Hfn as -> ->.
  destruct (alignInList_inv _ _ _ E) as (V & _ & _ & -> & Hp).
  unfold getAlign_CallInst in Hcall. rewrite HI in Hcall.
  destruct (getMetadata I "callalign") as [n|]; [|discriminate].
  destruct (alignInCallalign_inv _ _ _ Hcall) as (c & Hc & Hidx & -> & Hq).
  cbn [align_value].
  split; [exact Hp|].
  split; [apply pow2_below_65536; [exact Hp|apply land_65535_lt]|].
  split; [exact Hq|].
  split; [apply pow2_below_65536; [exact Hq|apply land_65535_lt]|].
  exists n, c. auto.
Qed.

Lemma legacy_alignment_bounded_witness :
  isPowerOf2 8 = true ∧ 1 ≤ 8 ≤ 32768.
Proof.
  destruct (legacy_alignment_bounded (alignedFunction (λ _, None))
              (alignedCall (λ _, None) [("callalign", [mdInt 65544])]) 1
              emptyCache (cacheAfterLookup (sampleEntity 14) emptyCache)
              {| align_value := 8 |} {| align_value := 8 |})
    as (H1 & H2 & _).
  - reflexivity.
  - reflexivity.
  - vm_compute. reflexivity.
  - vm_compute. reflexivity.
  - split; [exact H1|exact H2].
Defined.

(** X9.  On a [callalign] node whose operands are integer constants with
    indexes that never decrease, stopping early loses nothing: the scan
    of the call gives what the exhaustive scan of the function-level list
    gives on the same values. *)
Theorem callalign_early_exit_sound (I : CallInst) (cs : list Z) (Index : Z)
    (HI : call_getStackAlignment I Index = None)
    (Hnode : getMetadata I "callalign" = Some (map mdInt cs))
    (Hsorted : indexSorted (map (λ c, to_unsigned (getZExtValue c)) cs)) :
  getAlign_CallInst I Index
  = alignInList (map (λ c, to_unsigned (getZExtValue c)) cs) Index.
Proof.
  unfold getAlign_CallInst. rewrite HI, Hnode. clear HI Hnode.
  induction cs as [|c cs IH]; [reflexivity|].
  cbn [map indexSorted] in Hsorted. destruct Hsorted as [Hall Hrest].
  cbn [map alignInCallalign alignInList mdInt dyn_extract_ConstantInt
       result_bind].
  set (V := to_unsigned (getZExtValue c)) in *.
  destruct (Z.eqb_spec (Z.shiftr V 16) Index) as [Heq|Hne]; [reflexivity|].
  destruct (Z.gtb_spec (Z.shiftr V 16) Index) as [Hgt|Hle];
    [|apply IH; exact Hrest].
  symmetry. apply alignInList_none.
  eapply Forall_impl; [exact Hall|]. cbn. intros W HW. lia.
Qed.

Lemma callalign_early_exit_sound_witness :
  getAlign_CallInst
    (alignedCall (λ _, None) [("callalign", [mdInt 65544; mdInt 131076])]) 2
  = Ok (Some {| align_value := 4 |}).
Proof.
  rewrite (callalign_early_exit_sound _ [65544; 131076] 2).
  - vm_compute. reflexivity.
  - reflexivity.
  - reflexivity.
  - cbn. repeat split; repeat constructor; vm_compute; discriminate.
Defined.



(** ** Predicates on arguments *)

Lemma cacheAfterLookup_idem gv AC :
  cacheAfterLookup gv (cacheAfterLookup gv AC) = cacheAfterLookup gv AC.
Proof.
  unfold cacheAfterLookup. cbn [Cache]. rewrite lookup_insert_eq.
  cbn [default id]. rewrite !insert_insert_eq. reflexivity.
Qed.

Lemma coherentAt_after_self gv AC :
  coherentAt gv (cacheAfterLookup gv AC) = true.
Proof.
  unfold coherentAt, cacheAfterLookup. rewrite lookupEntry_insert.
  rewrite !decide_True by reflexivity. apply bool_decide_eq_true. reflexivity.
Qed.

(** X11.  [isImage] on an argument answers whether the position of the
    argument is recorded for its function under "rdoimage", "wroimage" or
    "rdwrimage"; the first of the three lookups caches the function and
    the others change nothing more.  On a value that is not an argument
    it is false and leaves the cache alone. *)
Theorem isImage_spec (val : Value) (arg : Argument) (AC : AnnotationCache)
    (Hwf : wellAnnotated (fn_gv (arg_getParent arg)) = true)
    (Hcoh : coherentAt (fn_gv (arg_getParent arg)) AC = true) :
  isImage (ArgumentV arg) AC
  = Ok (is_contained (recordedValues (fn_gv (arg_getParent arg)) "rdoimage")
          (getArgNo arg)
        || is_contained (recordedValues (fn_gv (arg_getParent arg)) "wroimage")
             (getArgNo arg)
        || is_contained (recordedValues (fn_gv (arg_getParent arg)) "rdwrimage")
             (getArgNo arg),
        cacheAfterLookup (fn_gv (arg_getParent arg)) AC) ∧
  (dyn_cast_Argument val = None → isImage val AC = Ok (false, AC)).
Proof.
  split.
  - unfold isImage, isImageReadOnly, isImageWriteOnly, isImageReadWrite.
    rewrite markedArgument_spec by assumption. cbn [result_bind].
    destruct (is_contained _ _); [reflexivity|].
    rewrite markedArgument_spec
      by (assumption || apply coherentAt_after_self).
    cbn [result_bind]. rewrite !cacheAfterLookup_idem.
    destruct (is_contained _ _); [reflexivity|].
    rewrite markedArgument_spec
      by (assumption || apply coherentAt_after_self).
    rewrite !cacheAfterLookup_idem. reflexivity.
  - intros Hval.
    unfold isImage, isImageReadOnly, isImageWriteOnly, isImageReadWrite,
      markedArgument.
    rewrite Hval. reflexivity.
Qed.

Lemma isImage_spec_witness :
  isImage (ArgumentV (sampleArgument 15 2)) emptyCache
  = Ok (true, cacheAfterLookup (sampleEntity 15) emptyCache) ∧
  isImage (ArgumentV (sampleArgument 15 1)) emptyCache
  = Ok (false, cacheAfterLookup (sampleEntity 15) emptyCache).
Proof.
  split.
  - apply (isImage_spec OtherValue (sampleArgument 15 2) emptyCache);
      vm_compute; reflexivity.
  - apply (isImage_spec OtherValue (sampleArgument 15 1) emptyCache);
      vm_compute; reflexivity.
Defined.

(** X12.  [isSampler] on an argument asserts nothing: it answers whether
    the position of the argument is among the "sampler" values of its
    function, whatever those values are. *)
Theorem isSampler_argument (arg : Argument) (AC : AnnotationCache)
    (Hwf : wellAnnotated (fn_gv (arg_getParent arg)) = true)
    (Hcoh : coherentAt (fn_gv (arg_getParent arg)) AC = true) :
  isSampler (ArgumentV arg) AC
  = Ok (is_contained (recordedValues (fn_gv (arg_getParent arg)) "sampler")
          (getArgNo arg),
        cacheAfterLookup (fn_gv (arg_getParent arg)) AC).
Proof.
  unfold isSampler. cbn [dyn_cast_GlobalValue].
  apply markedArgument_spec; assumption.
Qed.

Lemma isSampler_argument_witness :
  isSampler (ArgumentV (sampleArgument 15 0)) emptyCache
  = Ok (false, cacheAfterLookup (sampleEntity 15) emptyCache).
Proof.
  apply (isSampler_argument (sampleArgument 15 0) emptyCache);
    vm_compute; reflexivity.
Defined.

(** ** No-return emission *)

(** X13.  [shouldEmitPTXNoReturn]: without the subtarget feature the
    answer is false for every value, with no assertion and no lookup; a
    call is judged by its own attributes, without a lookup; a function is
    looked up only when it does not return and returns [void], and then
    the answer is true exactly when it is not a kernel, so a kernel entry
    point is never emitted as no-return. *)
Theorem shouldEmitPTXNoReturn_spec (V : EmitSubject) (F : Function)
    (I : CallInst) (d v : bool) (AC : AnnotationCache)
    (Hwf : wellAnnotated (fn_gv F) = true)
    (Hcoh : coherentAt (fn_gv F) AC = true) :
  shouldEmitPTXNoReturn V false AC = Ok (false, AC) ∧
  shouldEmitPTXNoReturn (SubjectCallInst I d v) true AC = Ok (d && v, AC) ∧
  shouldEmitPTXNoReturn (SubjectFunction F d v) true AC
  = (if d && v then
       Ok (negb (match recordedValues (fn_gv F) "kernel" with
                 | [] => getCallingConv F =? PTX_Kernel
                 | x :: _ => x =? 1
                 end),
           cacheAfterLookup (fn_gv F) AC)
     else Ok (false, AC)) ∧
  (∀ AC', isKernelFunction F AC = Ok (true, AC') →
          ∃ AC'', shouldEmitPTXNoReturn (SubjectFunction F d v) true AC
                  = Ok (false, AC'')).
Proof.
  assert (Hk : isKernelFunction F AC
               = Ok (match recordedValues (fn_gv F) "kernel" with
                     | [] => getCallingConv F =? PTX_Kernel
                     | x :: _ => x =? 1
                     end, cacheAfterLookup (fn_gv F) AC)).
  { unfold isKernelFunction.
    rewrite findOneNVVMAnnotation_spec by assumption.
    destruct (recordedValues (fn_gv F) "kernel"); reflexivity. }
  split; [reflexivity|]. split; [reflexivity|].
  unfold shouldEmitPTXNoReturn. cbn [negb]. rewrite Hk. cbn [result_bind].
  split.
  - destruct d, v; reflexivity.
  - intros AC' H. injection H as Hb _. rewrite Hb.
    destruct d, v; eauto.
Qed.

Lemma shouldEmitPTXNoReturn_spec_witness :
  shouldEmitPTXNoReturn (SubjectFunction (sampleFunction 11 0) true true)
    true emptyCache
  = Ok (false, cacheAfterLookup (sampleEntity 11) emptyCache) ∧
  shouldEmitPTXNoReturn (SubjectFunction (sampleFunction 10 0) true true)
    true emptyCache
  = Ok (true, cacheAfterLookup (sampleEntity 10) emptyCache).
Proof.
  split.
  - destruct (shouldEmitPTXNoReturn_spec SubjectOther (sampleFunction 11 0)
                (alignedCall (λ _, None) []) true true emptyCache)
      as (_ & _ & H & _); [vm_compute; reflexivity..|].
    exact H.
  - destruct (shouldEmitPTXNoReturn_spec SubjectOther (sampleFunction 10 0)
                (alignedCall (λ _, None) []) true true emptyCache)
      as (_ & _ & H & _); [vm_compute; reflexivity..|].
    exact H.
Defined.

(** ** Lookups and the invalidation of another module *)

Lemma cacheAnnotationFromMD_clear_other m gv o AC :
  o ≠ mod_addr m →
  cacheAnnotationFromMD m gv (clearAnnotationCache o AC)
  = result_map (clearAnnotationCache o) (cacheAnnotationFromMD m gv AC).
Proof.
  intros Hne. unfold cacheAnnotationFromMD, result_map.
  destruct (getNamedMetadata m "nvvm.annotations") as [NMD|]; [|reflexivity].
  destruct (scanRecords NMD (gv_addr gv) ∅) as [tmp| |]; try reflexivity.
  cbn [result_bind]. destruct (bool_decide (tmp = ∅)); [reflexivity|].
  unfold clearAnnotationCache at 1. cbn [Cache].
  rewrite lookup_delete_ne by assumption.
  destruct (Cache AC !! mod_addr m); cbn [result_bind];
    unfold clearAnnotationCache; cbn [Cache];
    rewrite delete_insert_ne by assumption; reflexivity.
Qed.

Lemma Cache_subscript_clear_other m gv o AC :
  o ≠ m →
  Cache_subscript m gv (clearAnnotationCache o AC)
  = ((Cache_subscript m gv AC).1,
     clearAnnotationCache o (Cache_subscript m gv AC).2).
Proof.
  intros Hne. unfold Cache_subscript, clearAnnotationCache. cbn [Cache fst snd].
  rewrite lookup_delete_ne by assumption.
  rewrite delete_insert_ne by assumption. reflexivity.
Qed.

(** X14.  Invalidating another module and looking an entity up commute:
    the lookup gives the same answer (or fails the same assertion)
    whether the other module was invalidated before or not, and the cache
    it leaves is the one the other order leaves. *)
Theorem lookup_commutes_with_clear (gv : GlobalValue) (prop : string)
    (other : addr) (AC : AnnotationCache)
    (Hother : other ≠ mod_addr (getParent gv)) :
  findOneNVVMAnnotation gv prop (clearAnnotationCache other AC)
  = result_map (λ p, (p.1, clearAnnotationCache other p.2))
      (findOneNVVMAnnotation gv prop AC) ∧
  findAllNVVMAnnotation gv prop (clearAnnotationCache other AC)
  = result_map (λ p, (p.1, clearAnnotationCache other p.2))
      (findAllNVVMAnnotation gv prop AC).
Proof.
  assert (Hpop : populateIfMissing gv (clearAnnotationCache other AC)
                 = result_map (clearAnnotationCache other)
                     (populateIfMissing gv AC)).
  { unfold populateIfMissing.
    replace (notCached gv (clearAnnotationCache other AC))
      with (notCached gv AC)
      by (unfold notCached, clearAnnotationCache; cbn [Cache];
          rewrite lookup_delete_ne by assumption; reflexivity).
    destruct (notCached gv AC); [|reflexivity].
    apply cacheAnnotationFromMD_clear_other. assumption. }
  unfold findOneNVVMAnnotation, findAllNVVMAnnotation. rewrite Hpop.
  unfold result_map.
  destruct (populateIfMissing gv AC) as [AC1| |]; cbn [result_bind];
    [|split; reflexivity..].
  rewrite Cache_subscript_clear_other by assumption.
  destruct (Cache_subscript (mod_addr (getParent gv)) (gv_addr gv) AC1)
    as [kv AC2]. cbn [fst snd].
  destruct (kv !! prop) as [[|v vs]|]; split; reflexivity.
Qed.

Lemma lookup_commutes_with_clear_witness :
  findOneNVVMAnnotation (sampleEntity 10) "maxntidx"
    (clearAnnotationCache 2 sampleCache)
  = Ok (Some 4,
        clearAnnotationCache 2 (cacheAfterLookup (sampleEntity 10) sampleCache)).
Proof.
  destruct (lookup_commutes_with_clear (sampleEntity 10) "maxntidx" 2%N
              sampleCache) as [H _].
  - discriminate.
  - etransitivity; [exact H|]. vm_compute. reflexivity.
Defined.

(** ** The accessors *)

(** X15.  The nine launch-bound accessors answer with the first value
    recorded for their property, and one scan serves them all: after any
    of them has run (or any other lookup for the function), each of them
    answers from the cache and leaves it as it is. *)
Theorem accessors_share_one_scan (F : Function) (AC : AnnotationCache)
    (acc : Function → AnnotationCache → result (option Z * AnnotationCache))
    (name : string)
    (Hacc : In (acc, name)
              [(getMaxNTIDx, "maxntidx"); (getMaxNTIDy, "maxntidy");
               (getMaxNTIDz, "maxntidz");
               (getMaxClusterRank, "maxclusterrank");
               (getReqNTIDx, "reqntidx"); (getReqNTIDy, "reqntidy");
               (getReqNTIDz, "reqntidz"); (getMinCTASm, "minctasm");
               (getMaxNReg, "maxnreg")])
    (Hwf : wellAnnotated (fn_gv F) = true)
    (Hcoh : coherentAt (fn_gv F) AC = true) :
  acc F AC
  = Ok (head (recordedValues (fn_gv F) name), cacheAfterLookup (fn_gv F) AC) ∧
  acc F (cacheAfterLookup (fn_gv F) AC)
  = Ok (head (recordedValues (fn_gv F) name), cacheAfterLookup (fn_gv F) AC).
Proof.
  assert (H : ∀ prop,
    findOneNVVMAnnotation (fn_gv F) prop AC
    = Ok (head (recordedValues (fn_gv F) prop),
          cacheAfterLookup (fn_gv F) AC) ∧
    findOneNVVMAnnotation (fn_gv F) prop (cacheAfterLookup (fn_gv F) AC)
    = Ok (head (recordedValues (fn_gv F) prop),
          cacheAfterLookup (fn_gv F) AC)).
  { intros prop. split.
    - apply findOneNVVMAnnotation_spec; assumption.
    - rewrite findOneNVVMAnnotation_spec
        by (assumption || apply coherentAt_after_self).
      rewrite cacheAfterLookup_idem. reflexivity. }
  cbn [In] in Hacc.
  repeat (destruct Hacc as [Hacc|Hacc]; [injection Hacc as <- <-; apply H|]).
  destruct Hacc.
Qed.

Lemma accessors_share_one_scan_witness :
  getReqNTIDx (sampleFunction 11 0) emptyCache
  = Ok (Some 32, cacheAfterLookup (sampleEntity 11) emptyCache) ∧
  getReqNTIDx (sampleFunction 11 0)
    (cacheAfterLookup (sampleEntity 11) emptyCache)
  = Ok (Some 32, cacheAfterLookup (sampleEntity 11) emptyCache).
Proof.
  apply (accessors_share_one_scan (sampleFunction 11 0) emptyCache
           getReqNTIDx "reqntidx").
  - cbn. auto 10.
  - vm_compute. reflexivity.
  - vm_compute. reflexivity.
Defined.
